(** * Multi-modal RAG backend: ingestion, batched storage and answering

    A shallow embedding of [app/services/rag_service.py],
    [app/services/chroma_service.py] and the endpoints of [app/main.py]
    that the specification talks about, followed by the properties of the
    specification stated and proved (or refuted) on that embedding.

    Conventions.
    - A Python [str] is the list of its Unicode code points, a [bytes]
      object the list of its bytes.
    - A function that can raise returns a [result]; code that also touches
      the process-wide state ([IMAGE_CACHE], the vector database) runs in
      the state-and-exception monad [M].
    - The third-party libraries (chromadb, PyMuPDF, python-docx, Pillow,
      langchain, google-generativeai) are an interface, [Externals]; the
      code of the repository is written once, over any implementation of
      it.
    - Logging and timing have no effect on results and are left out. *)

From Stdlib Require Import ZArith NArith Ascii String Strings.Byte.
From stdpp Require Import base option list strings gmap pretty numbers.

Open Scope N_scope.
Open Scope list_scope.

(** ** Python values *)

Module Py.

(** A [str]: the sequence of its code points. *)
Definition str := list N.

(** A [bytes] object. *)
Definition bytes := list byte.

(** A literal of the source, written as an ASCII string. *)
Definition lit (s : string) : str := N_of_ascii <$> list_ascii_of_string s.

(** The line feed of the escape [\n]. *)
Definition LF : N := 10.

(** [len(x)] *)
Definition len {A} (l : list A) : nat := length l.

(** Truth value of a sequence: empty is false. *)
Definition truthy {A} (l : list A) : bool :=
  match l with [] => false | _ :: _ => true end.

(** [a == b] on strings *)
Definition str_eqb (a b : str) : bool := bool_decide (a = b).

(** [str.lower()] on one code point. The ASCII capitals move to their
    small letters. Code points above U+007F are left as they are: their
    case mapping is not modelled. No lower-casing of a code point above
    U+007F yields a full stop or one of the letters of [pdf], [docx] and
    [txt], so the dispatch on the extension is the one of the source. *)
Definition lower_char (c : N) : N :=
  if (65 <=? c) && (c <=? 90) then c + 32 else c.

(** [s.lower()] *)
Definition lower (s : str) : str := lower_char <$> s.

(** [s.split(sep)] for a separator of one code point: the pieces between
    the occurrences of [sep], never an empty list. The accumulator [cur]
    holds the piece being read, in reverse. *)
Fixpoint split_go (sep : N) (cur : str) (s : str) : list str :=
  match s with
  | [] => [rev cur]
  | c :: s' =>
      if c =? sep then rev cur :: split_go sep [] s'
      else split_go sep (c :: cur) s'
  end.

Definition split (sep : N) (s : str) : list str := split_go sep [] s.

(** [l[-1]] on a list; raises [IndexError] (here [None]) on the empty list. *)
Definition last_item {A} (l : list A) : option A := list.last l.

(** [sep.join(parts)] *)
Fixpoint join (sep : str) (parts : list str) : str :=
  match parts with
  | [] => []
  | [p] => p
  | p :: rest => p ++ sep ++ join sep rest
  end.

(** [s[:n]] for [n >= 0] *)
Definition prefix_slice {A} (n : nat) (s : list A) : list A := take n s.

(** [l[i:j]] for [0 <= i] and [0 <= j]; both ends are clamped to the
    length, as Python does. *)
Definition slice {A} (i j : nat) (l : list A) : list A :=
  take (j - i) (drop i l).

(** [range(start, stop, step)] for a positive step. At most [stop - start]
    numbers are produced, which bounds the recursion. *)
Fixpoint range_go (fuel i stop step : nat) : list nat :=
  match fuel with
  | O => []
  | S fuel' =>
      if (i <? stop)%nat then i :: range_go fuel' (i + step)%nat stop step
      else []
  end.

Definition range (start stop step : nat) : list nat :=
  range_go (stop - start) start stop step.

(** Whitespace for [str.strip()]: the code points Python treats as space. *)
Definition is_space (c : N) : bool :=
  ((9 <=? c) && (c <=? 13)) || ((28 <=? c) && (c <=? 32))
  || (c =? 133) || (c =? 160) || (c =? 5760)
  || ((8192 <=? c) && (c <=? 8202))
  || (c =? 8232) || (c =? 8233) || (c =? 8239) || (c =? 8287)
  || (c =? 12288).

Fixpoint lstrip (s : str) : str :=
  match s with
  | [] => []
  | c :: s' => if is_space c then lstrip s' else s
  end.

(** [s.strip()] *)
Definition strip (s : str) : str := rev (lstrip (rev (lstrip s))).

(** [str(n)] for a natural number: its decimal digits. *)
Definition str_of_nat (n : nat) : str := lit (pretty n).

(** A continuation byte of UTF-8, between [lo] and [hi]. *)
Definition in_range (lo hi b : N) : bool := (lo <=? b) && (b <=? hi).

(** [b.decode('utf-8')], strict: [None] is [UnicodeDecodeError]. The
    shortest encoding is required, surrogates and code points above
    U+10FFFF are refused. *)
Fixpoint utf8_go (bs : list N) : option str :=
  match bs with
  | [] => Some []
  | b0 :: r0 =>
      if b0 <? 128 then cons b0 <$> utf8_go r0
      else if in_range 194 223 b0 then
        match r0 with
        | b1 :: r1 =>
            if in_range 128 191 b1
            then cons ((b0 - 192) * 64 + (b1 - 128)) <$> utf8_go r1
            else None
        | _ => None
        end
      else if in_range 224 239 b0 then
        match r0 with
        | b1 :: b2 :: r2 =>
            let lo := if b0 =? 224 then 160 else 128 in
            let hi := if b0 =? 237 then 159 else 191 in
            if in_range lo hi b1 && in_range 128 191 b2
            then cons ((b0 - 224) * 4096 + (b1 - 128) * 64 + (b2 - 128))
                   <$> utf8_go r2
            else None
        | _ => None
        end
      else if in_range 240 244 b0 then
        match r0 with
        | b1 :: b2 :: b3 :: r3 =>
            let lo := if b0 =? 240 then 144 else 128 in
            let hi := if b0 =? 244 then 143 else 191 in
            if in_range lo hi b1 && in_range 128 191 b2 && in_range 128 191 b3
            then cons ((b0 - 240) * 262144 + (b1 - 128) * 4096
                       + (b2 - 128) * 64 + (b3 - 128))
                   <$> utf8_go r3
            else None
        | _ => None
        end
      else None
  end.

Definition decode_utf8 (b : bytes) : option str := utf8_go (Byte.to_N <$> b).

(** The bytes of an ASCII literal, to write inputs down. *)
Definition bytes_lit (s : string) : bytes := list_byte_of_string s.

(** [needle in hay] on strings *)
Fixpoint is_prefix_of (p s : str) : bool :=
  match p, s with
  | [], _ => true
  | a :: p', b :: s' => (a =? b) && is_prefix_of p' s'
  | _ :: _, [] => false
  end.

Fixpoint contains (needle hay : str) : bool :=
  is_prefix_of needle hay ||
  match hay with
  | [] => false
  | _ :: hay' => contains needle hay'
  end.

End Py.

Import Py.

(** ** Exceptions and results *)

(** The exceptions the code raises or lets through. [LibraryError] is
    whatever a third-party library raises; its text is its argument. *)
Inductive exn : Type :=
  | ValueError (msg : str)
  | UnicodeDecodeError
  | PyException (msg : str)
  | HTTPException (status_code : Z) (detail : str)
  | LibraryError (msg : str).

(** The outcome of a call that can raise. *)
Inductive result (A : Type) : Type :=
  | Ok (a : A)
  | Err (e : exn).

Arguments Ok {A} a.
Arguments Err {A} e.

Definition is_ok {A} (r : result A) : bool :=
  match r with Ok _ => true | Err _ => false end.

(** ** Data of the libraries *)

(** A Pillow image, as far as the code looks at it: [size], [mode], and the
    pixel data behind them ([pixels] names the picture; [complete] tells
    whether the data, which Pillow loads lazily, can be decoded). *)
Record Image : Type := mkImage {
  width : nat;
  height : nat;
  mode : str;
  pixels : N;
  complete : bool
}.

(** A page of a PyMuPDF document: the outcome of [page.get_text()], and of
    [page.get_images(full=True)], which lists for every image reference
    the outcome of extracting and opening it. *)
Record Page : Type := mkPage {
  get_text : result str;
  get_images : result (list (result Image))
}.

(** The metadata dictionary of a chunk. *)
Record Metadata : Type := mkMetadata {
  md_filename : str;
  md_chunk_index : nat;
  md_total_chunks : nat;
  md_batch_id : nat
}.

(** The arguments of one [collection.add] call. *)
Record AddCall : Type := mkAddCall {
  documents : list str;
  metadatas : list Metadata;
  ids : list str
}.

(** A collection handle of chromadb. *)
Record Collection : Type := mkCollection { name : str }.

(** The dictionary a chromadb query returns, as far as the code reads it:
    the value under ['documents'], [None] when the key is absent or holds
    [None] (an empty dictionary reads the same way). *)
Record QueryResult : Type := mkQueryResult {
  qr_documents : option (list (list str))
}.

(** A part of a prompt: a text or a picture. *)
Inductive Part : Type :=
  | Text (s : str)
  | Picture (img : Image).

(** A response of the generation model: the outcome of reading
    [response.text], which raises when the model produced no candidate. *)
Record Response : Type := mkResponse { text : result str }.

(** ** The third-party libraries *)

Class Externals : Type := {
  (** state of the persistent vector database *)
  Store : Type;
  (** [client.get_or_create_collection(name=...)] *)
  client_get_or_create_collection : str -> Store -> Store * result Collection;
  (** [collection.add(documents=..., metadatas=..., ids=...)] *)
  collection_add : Collection -> AddCall -> Store -> Store * result unit;
  (** [collection.query(query_texts=..., n_results=...)] *)
  collection_query :
    Collection -> list str -> nat -> Store -> Store * result QueryResult;
  (** [client.delete_collection(name=...)] *)
  client_delete_collection : str -> Store -> Store * result unit;
  (** [client.list_collections()] *)
  client_list_collections : Store -> Store * result (list Collection);
  (** [fitz.open(stream=..., filetype="pdf")] and its pages *)
  fitz_open : bytes -> result (list Page);
  (** [docx.Document(...)]: the texts of its paragraphs *)
  docx_Document : bytes -> result (list str);
  (** [RecursiveCharacterTextSplitter.split_text] *)
  split_text : str -> result (list str);
  (** [image.thumbnail(size, LANCZOS)]: the image after the call, which
      changes it in place; a call that raises leaves it as it was *)
  thumbnail : Image -> nat * nat -> result Image;
  (** [image.convert(mode)]: a new image *)
  convert : Image -> str -> result Image;
  (** [generation_model.generate_content(parts)] *)
  generate_content : list Part -> result Response;
  (** [str(e)] for the exceptions whose text the runtime or the web
      framework chooses *)
  runtime_str : exn -> str
}.

(** [str(e)] *)
Definition exn_str `{Externals} (e : exn) : str :=
  match e with
  | ValueError m | PyException m | LibraryError m => m
  | UnicodeDecodeError | HTTPException _ _ => runtime_str e
  end.

(** ** Process state and the monad of the code *)

(** The state the code works on: the module-level dictionary
    [IMAGE_CACHE], the vector database, and, to state how the database is
    called, the log of the [collection.add] calls made so far. *)
Record World `{Externals} : Type := mkWorld {
  IMAGE_CACHE : gmap str (list Image);
  db : Store;
  add_calls : list AddCall
}.

Definition M `{Externals} (A : Type) : Type := World -> World * result A.

Definition ret `{Externals} {A} (a : A) : M A := fun w => (w, Ok a).

Definition raise `{Externals} {A} (e : exn) : M A := fun w => (w, Err e).

Definition bind `{Externals} {A B} (m : M A) (k : A -> M B) : M B :=
  fun w =>
    match m w with
    | (w', Ok a) => k a w'
    | (w', Err e) => (w', Err e)
    end.

(** [try: body except Exception as e: handler]; the effects of [body] up
    to the exception stay. *)
Definition try_except `{Externals} {A} (body : M A) (handler : exn -> M A)
  : M A :=
  fun w =>
    match body w with
    | (w', Ok a) => (w', Ok a)
    | (w', Err e) => handler e w'
    end.

(** A call that raises or returns, without touching the state. *)
Definition lift `{Externals} {A} (r : result A) : M A := fun w => (w, r).

(** A call into the vector database. *)
Definition on_db `{Externals} {A} (f : Store -> Store * result A) : M A :=
  fun w =>
    let (s, r) := f (db w) in
    (mkWorld _ (IMAGE_CACHE w) s (add_calls w), r).

Declare Scope py_scope.
Delimit Scope py_scope with py.
Notation "x <- m ;; k" := (bind m (fun x => k))
  (at level 100, m at next level, right associativity) : py_scope.
Notation "m ;;; k" := (bind m (fun _ => k))
  (at level 100, right associativity) : py_scope.
Open Scope py_scope.

(** [for x in xs: body(x)]: an exception ends the loop. *)
Fixpoint for_each `{Externals} {A} (xs : list A) (body : A -> M unit)
  : M unit :=
  match xs with
  | [] => ret tt
  | x :: xs' => body x ;;; for_each xs' body
  end.

(** [when c: body] *)
Definition when `{Externals} (c : bool) (body : M unit) : M unit :=
  if c then body else ret tt.

(** ** [app/services/chroma_service.py] *)

(** Every method of [ChromaService] wraps one client call in
    [try: ... except Exception: log; raise], which lets the exception
    through unchanged. *)
Module ChromaService.
Section Methods.
Context `{Externals}.

Definition get_or_create_collection (name : str) : M Collection :=
  on_db (client_get_or_create_collection name).

(** The call is written to the log before the database answers. *)
Definition add_documents (collection : Collection) (documents : list str)
    (metadatas : list Metadata) (ids : list str) : M unit :=
  fun w =>
    let call := mkAddCall documents metadatas ids in
    let (s, r) := collection_add collection call (db w) in
    (mkWorld _ (IMAGE_CACHE w) s (add_calls w ++ [call]), r).

Definition query (collection : Collection) (query_texts : list str)
    (n_results : nat) : M QueryResult :=
  on_db (collection_query collection query_texts n_results).

Definition list_collections : M (list str) :=
  collections <- on_db client_list_collections ;;
  ret (name <$> collections).

Definition delete_collection (name : str) : M unit :=
  on_db (client_delete_collection name).

End Methods.
End ChromaService.

(** ** [app/services/rag_service.py] *)

Module RAGService.
Section Methods.
Context `{Externals}.

(** [filename.lower().split('.')[-1]] *)
Definition file_extension_of (filename : str) : result str :=
  match last_item (split 46 (lower filename)) with
  | Some piece => Ok piece
  | None => Err (LibraryError (lit "list index out of range"))
  end.

(** [file_bytes.decode('utf-8')] *)
Definition decode (file_bytes : bytes) : result str :=
  match decode_utf8 file_bytes with
  | Some s => Ok s
  | None => Err UnicodeDecodeError
  end.

(** The inner [try] of the image loop: an image that cannot be extracted
    or opened is logged and skipped; one that opens is kept when both its
    sides are above 50 pixels. *)
Definition keep_image (images : list Image) (opened : result Image)
  : list Image :=
  match opened with
  | Ok pil_image =>
      if (50 <? width pil_image)%nat && (50 <? height pil_image)%nat
      then images ++ [pil_image]
      else images
  | Err _ => images
  end.

(** The [try] around one page: what was added before the page raised
    stays. *)
Definition extract_page (acc : str * list Image) (page : Page)
  : str * list Image :=
  let '(text, images) := acc in
  match get_text page with
  | Err _ => (text, images)
  | Ok page_text =>
      let text := text ++ page_text ++ [LF] in
      match get_images page with
      | Err _ => (text, images)
      | Ok infos => (text, foldl keep_image images infos)
      end
  end.

Definition _extract_text_and_images_from_pdf (file_bytes : bytes)
  : result (str * list Image) :=
  match fitz_open file_bytes with
  | Err e => Err e
  | Ok pdf_document => Ok (foldl extract_page ([], []) pdf_document)
  end.

Definition _extract_text_from_docx (file_bytes : bytes) : result str :=
  match docx_Document file_bytes with
  | Err e => Err e
  | Ok paragraphs => Ok (join [LF] paragraphs)
  end.

(** The body of the [try] of [_optimize_image]: the image object as the
    body leaves it, and what the body returns or raises. [thumbnail]
    changes the object in place, [convert] makes a new one. *)
Definition optimize_body (image : Image) (max_size : nat * nat)
  : Image * result Image :=
  let resized :=
    if (max_size.1 <? width image)%nat || (max_size.2 <? height image)%nat
    then thumbnail image max_size
    else Ok image in
  match resized with
  | Err e => (image, Err e)
  | Ok image1 =>
      if negb (str_eqb (mode image1) (lit "RGB")
               || str_eqb (mode image1) (lit "L"))
      then
        match convert image1 (lit "RGB") with
        | Ok image2 => (image1, Ok image2)
        | Err e => (image1, Err e)
        end
      else (image1, Ok image1)
  end.

(** [except Exception: return image] gives the object back as it is. *)
Definition _optimize_image_sized (image : Image) (max_size : nat * nat)
  : Image :=
  match optimize_body image max_size with
  | (_, Ok optimized) => optimized
  | (image', Err _) => image'
  end.

Definition _optimize_image (image : Image) : Image :=
  _optimize_image_sized image (800, 600)%nat.

(** What one turn of the loop of [_store_chunks_in_batches] prepares for
    the batch that starts at [i]. *)
Definition batch_call (chunks : list str) (filename collection_name : str)
    (batch_size i : nat) : AddCall :=
  let total_chunks := len chunks in
  let batch_end := Nat.min (i + batch_size) total_chunks in
  let batch_chunks := slice i batch_end chunks in
  let documents := batch_chunks in
  let metadatas :=
    (fun j => mkMetadata filename (i + j) total_chunks (i / batch_size))
      <$> range 0 (len batch_chunks) 1 in
  let ids :=
    (fun j => collection_name ++ lit "_" ++ str_of_nat (i + j))
      <$> range 0 (len batch_chunks) 1 in
  mkAddCall documents metadatas ids.

Definition _store_chunks_in_batches (collection : Collection)
    (chunks : list str) (filename collection_name : str) : M unit :=
  let batch_size := 100%nat in
  let total_chunks := len chunks in
  for_each (range 0 total_chunks batch_size) (fun i =>
    let call := batch_call chunks filename collection_name batch_size i in
    ChromaService.add_documents collection
      (documents call) (metadatas call) (ids call)).

(** [IMAGE_CACHE[collection_name] = optimized_images] *)
Definition cache_store (collection_name : str) (images : list Image)
  : M unit :=
  fun w =>
    (mkWorld _ (<[collection_name := images]> (IMAGE_CACHE w)) (db w)
       (add_calls w), Ok tt).

(** [IMAGE_CACHE.get(collection_name, [])] *)
Definition cache_get (collection_name : str) : M (list Image) :=
  fun w => (w, Ok (default [] (IMAGE_CACHE w !! collection_name))).

(** The [if]/[elif] chain of [process_document] on the extension: the
    text and the images of the document. *)
Definition extract_by_extension (file_bytes : bytes) (file_extension : str)
  : M (str * list Image) :=
  if str_eqb file_extension (lit "pdf") then
    lift (_extract_text_and_images_from_pdf file_bytes)
  else if str_eqb file_extension (lit "docx") then
    (text_content <- lift (_extract_text_from_docx file_bytes) ;;
     ret (text_content, []))
  else if str_eqb file_extension (lit "txt") then
    (text_content <- lift (decode file_bytes) ;;
     ret (text_content, []))
  else
    raise (ValueError (lit "Unsupported file type: " ++ file_extension)).

Definition empty_document : exn :=
  ValueError (lit "Document is empty or content could not be extracted.").

(** What [process_document] does with the text and the images once they
    are extracted: the emptiness check, the image cache, the chunks. *)
Definition cache_and_store (text_content : str) (images : list Image)
    (filename collection_name : str) : M unit :=
  when (negb (truthy (strip text_content)) && negb (truthy images))
    (raise empty_document)
  ;;;
  when (truthy images)
    (let optimized_images := _optimize_image <$> images in
     cache_store collection_name optimized_images)
  ;;;
  when (truthy (strip text_content))
    (chunks <- lift (split_text text_content) ;;
     when (truthy chunks)
       (collection <-
          ChromaService.get_or_create_collection collection_name ;;
        _store_chunks_in_batches collection chunks filename
          collection_name)).

Definition process_document (file_bytes : bytes)
    (filename collection_name : str) : M unit :=
  try_except
    (file_extension <- lift (file_extension_of filename) ;;
     extracted <- extract_by_extension file_bytes file_extension ;;
     cache_and_store extracted.1 extracted.2 filename collection_name)
    (fun e => raise e).

Definition separator : str := [LF; LF] ++ lit "---" ++ [LF; LF].

Definition ellipsis : str := lit "...".

Definition max_context_length : nat := 4000.

(** The text context of [generate_response], from the query results. *)
Definition text_context_of (results : QueryResult) : str :=
  match qr_documents results with
  | Some (relevant_chunks :: _) =>
      if truthy relevant_chunks then
        let text_context := join separator relevant_chunks in
        if (max_context_length <? len text_context)%nat
        then prefix_slice max_context_length text_context ++ ellipsis
        else text_context
      else []
  | _ => []
  end.

Definition no_response_message : str :=
  lit "I'm sorry, I couldn't generate a response. Please try rephrasing your question.".

Definition error_message : str :=
  lit "I encountered an error while generating the response. Please try again.".

Definition prompt_parts_of (query text_context : str)
    (images_context : list Image) : list Part :=
  let prompt_parts :=
    [ Text (lit "Question: " ++ query ++ [LF; LF]);
      Text (lit "Please answer the following question based ONLY on the provided context.");
      Text (lit "If the information is not available in the text or images, clearly state that you cannot find the answer in the document." ++ [LF]);
      Text (lit "--- TEXT CONTEXT ---");
      Text (if truthy text_context then text_context
            else lit "No relevant text was found in the document.");
      Text (lit "--- END TEXT CONTEXT ---" ++ [LF]) ] in
  let prompt_parts :=
    if truthy images_context then
      prompt_parts
      ++ [ Text ([LF] ++ lit "Additionally, "
                 ++ str_of_nat (len images_context)
                 ++ lit " images from the document are provided for context:") ]
      ++ (Picture <$> images_context)
    else prompt_parts in
  prompt_parts
  ++ [ Text ([LF] ++ lit "Provide a clear, concise answer based on the available context.") ].

Definition generate_response (query collection_name : str) : M str :=
  try_except
    (collection <- ChromaService.get_or_create_collection collection_name ;;
     results <- ChromaService.query collection [query] 5 ;;
     let text_context := text_context_of results in
     images_context <- cache_get collection_name ;;
     let prompt_parts := prompt_parts_of query text_context images_context in
     response <- lift (generate_content prompt_parts) ;;
     response_text <- lift (text response) ;;
     if truthy response_text then ret response_text
     else ret no_response_message)
    (fun _ => ret error_message).

Definition extract_text_from_file (file_bytes : bytes) (filename : str)
  : result str :=
  let body : result str :=
    match file_extension_of filename with
    | Err e => Err e
    | Ok file_extension =>
        if str_eqb file_extension (lit "pdf") then
          match _extract_text_and_images_from_pdf file_bytes with
          | Ok (text, _) => Ok text
          | Err e => Err e
          end
        else if str_eqb file_extension (lit "docx") then
          _extract_text_from_docx file_bytes
        else if str_eqb file_extension (lit "txt") then
          decode file_bytes
        else
          decode file_bytes
    end in
  match body with
  | Ok text => Ok text
  | Err e =>
      Err (PyException (lit "Failed to extract text from " ++ filename
                        ++ lit ": " ++ exn_str e))
  end.

(** [if collection_name in IMAGE_CACHE: del IMAGE_CACHE[collection_name]] *)
Definition clear_collection_cache (collection_name : str) : M unit :=
  fun w =>
    match IMAGE_CACHE w !! collection_name with
    | Some _ =>
        (mkWorld _ (base.delete collection_name (IMAGE_CACHE w)) (db w)
           (add_calls w), Ok tt)
    | None => (w, Ok tt)
    end.

(** [IMAGE_CACHE.clear()] *)
Definition clear_all_cache : M unit :=
  fun w => (mkWorld _ ∅ (db w) (add_calls w), Ok tt).

(** The dictionary from each cached collection to the number of its
    images. *)
Definition get_cache_info : M (gmap str nat) :=
  fun w => (w, Ok (length <$> IMAGE_CACHE w)).

End Methods.
End RAGService.

(** ** [app/main.py] *)

(** An uploaded file: its name and the outcome of [await file.read()]. *)
Record UploadFile : Type := mkUploadFile {
  filename : str;
  read : result bytes
}.

(** The arguments of one [background_tasks.add_task(process_document_async,
    ...)]. *)
Record Task : Type := mkTask {
  task_file_bytes : bytes;
  task_filename : str;
  task_collection_name : str;
  task_id : str
}.

(** A JSON object with string values. *)
Definition json : Type := list (str * str).

(** The body of a [POST /api/chat] request. *)
Record ChatRequest : Type := mkChatRequest {
  query : str;
  collection_name : str
}.

(** A record of [processing_status]. *)
Record Status : Type := mkStatus {
  st_status : str;
  st_message : str;
  st_progress : nat;
  st_collection_name : str
}.

(** What can be raised where the status dictionary is read: an exception
    of the code or of a library, or the [KeyError] of a missing task id. *)
Inductive raised : Type :=
  | Raised (e : exn)
  | KeyError (key : str).

(** The state of the server: the module-level dictionary
    [processing_status] of [app/main.py] beside the state of the
    services. *)
Record Server `{Externals} : Type := mkServer {
  processing_status : gmap str Status;
  world : World
}.

Module Main.
Section Endpoints.
Context `{Externals}.

Definition max_size : Z := 50 * 1024 * 1024.

Definition too_large : exn :=
  HTTPException 413 (lit "File too large. Maximum size is 50MB.").

(** [POST /api/upload]. [fresh] holds what the two [uuid.uuid4()] calls
    give: the text of the first and the hexadecimal digits of the second.
    The tasks are those handed to the background runner. *)
Definition upload_document (fresh : str * str) (background_tasks : list Task)
    (file : UploadFile) : list Task * result json :=
  let body : list Task * result json :=
    match read file with
    | Err e => (background_tasks, Err e)
    | Ok file_bytes =>
        if (max_size <? Z.of_nat (len file_bytes))%Z then
          (background_tasks, Err too_large)
        else
          let task_id := fresh.1 in
          let collection_name := lit "doc_" ++ prefix_slice 8 fresh.2 in
          (background_tasks
             ++ [mkTask file_bytes (filename file) collection_name task_id],
           Ok [ (lit "message",
                 lit "File '" ++ filename file ++ lit "' upload started.");
                (lit "task_id", task_id);
                (lit "collection_name", collection_name) ])
    end in
  match body with
  | (tasks, Ok response) => (tasks, Ok response)
  | (tasks, Err e) => (tasks, Err (HTTPException 500 (exn_str e)))
  end.

(** [DELETE /api/collections/{collection_name}] *)
Definition delete_collection (collection_name : str) : M json :=
  try_except
    (ChromaService.delete_collection collection_name ;;;
     ret [ (lit "message",
            lit "Collection '" ++ collection_name
            ++ lit "' deleted successfully") ])
    (fun e => raise (HTTPException 500 (exn_str e))).

(** [str(e)] where a [KeyError] can occur: the key between quotes (its
    [repr], for a key without quotes or escapes). *)
Definition raised_str (e : raised) : str :=
  match e with
  | Raised e => exn_str e
  | KeyError key => lit "'" ++ key ++ lit "'"
  end.

(** [processing_status[task_id].update({...})]: [KeyError] when the task
    id is not in the dictionary. *)
Definition status_update (task_id : str) (f : Status → Status)
    (statuses : gmap str Status) : gmap str Status + raised :=
  match statuses !! task_id with
  | Some st => inl (<[task_id := f st]> statuses)
  | None => inr (KeyError task_id)
  end.

(** The background task of an upload. The call of [process_document] in
    the executor is taken as a direct call. [None] is a normal return. *)
Definition process_document_async (file_bytes : bytes)
    (filename collection_name task_id : str) (s : Server)
  : Server * option raised :=
  let body : Server * option raised :=
    let statuses1 :=
      <[task_id := mkStatus (lit "processing")
                     (lit "Starting document processing...") 0
                     collection_name]> (processing_status s) in
    match status_update task_id
            (λ st, mkStatus (st_status st)
                     (lit "Extracting text from document...") 25
                     (st_collection_name st)) statuses1 with
    | inr e => (mkServer _ statuses1 (world s), Some e)
    | inl statuses2 =>
        match RAGService.process_document file_bytes filename
                collection_name (world s) with
        | (w', Err e) => (mkServer _ statuses2 w', Some (Raised e))
        | (w', Ok _) =>
            match status_update task_id
                    (λ st, mkStatus (lit "completed")
                             (lit "Document '" ++ filename
                              ++ lit "' processed successfully!") 100
                             (st_collection_name st)) statuses2 with
            | inl statuses3 => (mkServer _ statuses3 w', None)
            | inr e => (mkServer _ statuses2 w', Some e)
            end
        end
    end in
  match body with
  | (s', None) => (s', None)
  | (s', Some e) =>
      match status_update task_id
              (λ st, mkStatus (lit "failed")
                       (lit "Error processing document: " ++ raised_str e)
                       0 (st_collection_name st))
              (processing_status s') with
      | inl statuses => (mkServer _ statuses (world s'), None)
      | inr e' => (s', Some e')
      end
  end.

(** [GET /api/status/{task_id}] *)
Definition get_processing_status (task_id : str) (s : Server)
  : result Status :=
  match processing_status s !! task_id with
  | None => Err (HTTPException 404 (lit "Task not found"))
  | Some st => Ok st
  end.

(** [POST /api/chat]. The call of [generate_response] in the executor is
    taken as a direct call. *)
Definition chat_with_document (request : ChatRequest) : M json :=
  if negb (truthy (query request))
     || negb (truthy (collection_name request))
  then
    raise (HTTPException 400 (lit "Query and collection_name are required."))
  else
    try_except
      (response <-
         RAGService.generate_response (query request)
           (collection_name request) ;;
       ret [ (lit "response", response) ])
      (fun e => raise (HTTPException 500 (exn_str e))).

End Endpoints.
End Main.

(** ** An implementation of the libraries, to run the code on *)

(** A small in-memory implementation of [Externals]: a database that keeps
    the documents of each collection in order and answers a query with the
    first documents; a reader that takes every byte of a PDF as a page
    holding one character and one square picture of that many pixels; an
    image library that fails on pictures whose data is incomplete. *)
Module Demo.

Definition store : Type := gmap str (list str).

Definition get_or_create (name : str) (s : store)
  : store * result Collection :=
  match s !! name with
  | Some _ => (s, Ok (mkCollection name))
  | None => (<[name := []]> s, Ok (mkCollection name))
  end.

Definition add (c : Collection) (call : AddCall) (s : store)
  : store * result unit :=
  match s !! name c with
  | Some docs => (<[name c := docs ++ documents call]> s, Ok tt)
  | None => (s, Err (LibraryError (lit "Collection does not exist.")))
  end.

Definition query (c : Collection) (query_texts : list str) (n : nat)
    (s : store) : store * result QueryResult :=
  match s !! name c with
  | Some docs => (s, Ok (mkQueryResult (Some [take n docs])))
  | None => (s, Err (LibraryError (lit "Collection does not exist.")))
  end.

Definition delete (name : str) (s : store) : store * result unit :=
  match s !! name with
  | Some _ => (base.delete name s, Ok tt)
  | None => (s, Err (LibraryError (lit "Collection does not exist.")))
  end.

Definition list_all (s : store) : store * result (list Collection) :=
  (s, Ok (mkCollection <$> (map_to_list s).*1)).

Definition page_of_byte (b : byte) : Page :=
  let n := N.to_nat (Byte.to_N b) in
  mkPage (Ok [Byte.to_N b])
         (Ok [Ok (mkImage n n (lit "RGBA") (Byte.to_N b) true)]).

Definition open_pdf (b : bytes) : result (list Page) :=
  Ok (page_of_byte <$> b).

Definition open_docx (b : bytes) : result (list str) :=
  match decode_utf8 b with
  | Some s => Ok [s]
  | None => Err (LibraryError (lit "File is not a zip file"))
  end.

Definition splitter (s : str) : result (list str) :=
  Ok (if truthy s then [s] else []).

Definition truncated : exn := LibraryError (lit "image file is truncated").

(** Shrinks to fit the box, keeping the proportions; never enlarges. *)
Definition shrink (img : Image) (box : nat * nat) : result Image :=
  if complete img then
    let w := width img in
    let h := height img in
    if (w <=? box.1)%nat && (h <=? box.2)%nat then Ok img
    else
      let '(w', h') :=
        if (h * box.1 <=? w * box.2)%nat
        then (box.1, Nat.max 1 (h * box.1 / w))
        else (Nat.max 1 (w * box.2 / h), box.2) in
      Ok (mkImage (Nat.min w w') (Nat.min h h') (mode img) (pixels img) true)
  else Err truncated.

Definition to_mode (img : Image) (m : str) : result Image :=
  if complete img
  then Ok (mkImage (width img) (height img) m (pixels img) true)
  else Err truncated.

Definition model (parts : list Part) : result Response :=
  Ok (mkResponse (Ok (lit "The sky is blue."))).

(** [str(e)]: an [HTTPException] reads as its status, a colon and its
    detail. *)
Definition describe (e : exn) : str :=
  match e with
  | HTTPException status detail =>
      lit (pretty status) ++ lit ": " ++ detail
  | UnicodeDecodeError => lit "'utf-8' codec can't decode bytes"
  | ValueError m | PyException m | LibraryError m => m
  end.

#[local] Instance externals : Externals := {|
  Store := store;
  client_get_or_create_collection := get_or_create;
  collection_add := add;
  collection_query := query;
  client_delete_collection := delete;
  client_list_collections := list_all;
  fitz_open := open_pdf;
  docx_Document := open_docx;
  split_text := splitter;
  thumbnail := shrink;
  convert := to_mode;
  generate_content := model;
  runtime_str := describe
|}.

(** An upload, and a database that holds its collection, still empty. *)
Definition doc : str := lit "doc_1a2b3c4d".

Definition ready_world : World := mkWorld externals ∅ {[doc := []]} [].


(** A picture left in the cache by an earlier ingestion, and the state of
    a process that holds it for the collection. *)
Definition old_picture : Image := mkImage 640 480 (lit "RGB") 1 true.

Definition cached_world : World :=
  mkWorld externals {[doc := [old_picture]]} {[doc := []]} [].

(** A two-page PDF of the reader above: two pictures of 100 by 100. *)
Definition two_pages : bytes := bytes_lit "dd".

(** A file of 50 MB and one byte. *)
Definition oversized : bytes := replicate (N.to_nat 52428801) "000"%byte.

(** The state after ingesting the two-page PDF into the collection that
    already has a picture in the cache. *)
Definition reingested_world : World :=
  (RAGService.process_document two_pages (lit "scan.pdf") doc
     cached_world).1.

(** 250 chunks: the decimal numbers from 0 to 249. *)
Definition chunks250 : list str := str_of_nat <$> seq 0 250.

(** The state after storing them. *)
Definition stored_world : World :=
  (RAGService._store_chunks_in_batches (mkCollection doc) chunks250
     (lit "notes.txt") doc ready_world).1.

(** The same libraries over a database that refuses every write. *)
Definition refuse_add (c : Collection) (call : AddCall) (s : store)
  : store * result unit :=
  (s, Err (LibraryError (lit "attempt to write a readonly database"))).

Definition read_only : Externals := {|
  Store := store;
  client_get_or_create_collection := get_or_create;
  collection_add := refuse_add;
  collection_query := query;
  client_delete_collection := delete;
  client_list_collections := list_all;
  fitz_open := open_pdf;
  docx_Document := open_docx;
  split_text := splitter;
  thumbnail := shrink;
  convert := to_mode;
  generate_content := model;
  runtime_str := describe
|}.

(** A process over that database with a picture in the cache. *)
Definition read_only_world : @World read_only :=
  @mkWorld read_only {[doc := [old_picture]]} {[doc := []]} [].

(** A one-page PDF of the reader above whose text is a no-break space and
    whose picture is 160 by 160. *)
Definition blank_page : bytes := ["160"%byte].


End Demo.

(** * Properties *)

Open Scope nat_scope.

(** ** Vocabulary of the statements *)

(** The least number of batches of [d] that hold [n] items. *)
Definition ceil_div (n d : nat) : nat := (n + (d - 1)) / d.

(** The metadata and the id expected for the chunk at position [k] of an
    ingestion of [total] chunks. *)
Definition metadata_at (filename : str) (total k : nat) : Metadata :=
  mkMetadata filename k total (k / 100).

Definition id_at (collection_name : str) (k : nat) : str :=
  collection_name ++ lit "_" ++ str_of_nat k.

(** The calls the loop of [_store_chunks_in_batches] prepares, in order. *)
Definition batch_calls (chunks : list str) (filename collection_name : str)
  : list AddCall :=
  RAGService.batch_call chunks filename collection_name 100
    <$> range 0 (length chunks) 100.

(** The retrieval step of [generate_response]: the collection, then its
    five nearest chunks. *)
Definition retrieve `{Externals} (query collection_name : str)
  : M QueryResult :=
  collection <- ChromaService.get_or_create_collection collection_name ;;
  ChromaService.query collection [query] 5.

(** What [generate_response] answers once retrieval has given [results],
    with the images [images_context] of the cache. *)
Definition answer_of `{Externals} (query : str) (results : QueryResult)
    (images_context : list Image) : str :=
  let prompt :=
    RAGService.prompt_parts_of query (RAGService.text_context_of results)
      images_context in
  match generate_content prompt with
  | Err _ => RAGService.error_message
  | Ok response =>
      match text response with
      | Err _ => RAGService.error_message
      | Ok [] => RAGService.no_response_message
      | Ok (c :: answer) => c :: answer
      end
  end.



(** The two modes the code keeps. *)
Definition supported_mode (m : str) : Prop := m = lit "RGB" ∨ m = lit "L".

(** The calls logged between two states. *)
Definition new_calls `{Externals} (w w' : World) : list AddCall :=
  drop (length (add_calls w)) (add_calls w').

(** What a page of a PDF contributes: its text and a line feed when the
    text can be read, and then, when the images can be listed, those that
    open and have both sides above 50 pixels. *)
Definition opened (r : result Image) : option Image :=
  match r with Ok image => Some image | Err _ => None end.

Definition large_enough (image : Image) : Prop :=
  50 < width image ∧ 50 < height image.

Definition page_text (page : Page) : str :=
  match get_text page with
  | Ok page_text => page_text ++ [LF]
  | Err _ => []
  end.

Definition page_pictures (page : Page) : list Image :=
  match get_text page, get_images page with
  | Ok _, Ok infos => filter large_enough (omap opened infos)
  | _, _ => []
  end.

(** The pictures among the parts of a prompt, in order. *)
Definition pictures_of (parts : list Part) : list Image :=
  omap (λ part, match part with Picture image => Some image | Text _ => None end)
    parts.

(** Running a background task of an upload, and running several in
    order. *)
Definition run_task `{Externals} (s : Server) (t : Task) : Server :=
  (Main.process_document_async (task_file_bytes t) (task_filename t)
     (task_collection_name t) (task_id t) s).1.

Definition run_tasks `{Externals} (tasks : list Task) (s : Server) : Server :=
  foldl run_task s tasks.

(** The record a finished task leaves, from the outcome of its
    ingestion. *)
Definition final_status `{Externals} (filename collection_name : str)
    (outcome : result unit) : Status :=
  match outcome with
  | Ok _ =>
      mkStatus (lit "completed")
        (lit "Document '" ++ filename ++ lit "' processed successfully!")
        100 collection_name
  | Err e =>
      mkStatus (lit "failed")
        (lit "Error processing document: " ++ exn_str e) 0 collection_name
  end.

(** ** Arithmetic of batches *)

Lemma ceil_div_0 d : 0 < d → ceil_div 0 d = 0.
Proof. intros Hd. unfold ceil_div. apply Nat.div_small. lia. Qed.

Lemma ceil_div_step n d : 0 < d → 0 < n → ceil_div n d = S (ceil_div (n - d) d).
Proof.
  intros Hd Hn. unfold ceil_div.
  destruct (decide (d ≤ n)) as [Hle|Hgt].
  - replace (n + (d - 1)) with ((n - d + (d - 1)) + 1 * d) by lia.
    rewrite Nat.div_add by lia. lia.
  - replace (n - d) with 0 by lia.
    replace (n + (d - 1)) with ((n - 1) + 1 * d) by lia.
    rewrite Nat.div_add by lia.
    rewrite !Nat.div_small by lia. lia.
Qed.

Lemma ceil_div_bounds n d :
  0 < d → n ≤ ceil_div n d * d ∧ ceil_div n d * d < n + d.
Proof.
  intros Hd. unfold ceil_div.
  pose proof (Nat.div_mod (n + (d - 1)) d ltac:(lia)) as Hdm.
  pose proof (Nat.mod_upper_bound (n + (d - 1)) d ltac:(lia)) as Hub.
  nia.
Qed.

Lemma range_go_seq fuel i stop step :
  0 < step → stop - i ≤ fuel →
  range_go fuel i stop step
  = (λ q, i + q * step) <$> seq 0 (ceil_div (stop - i) step).
Proof.
  intros Hstep. revert i.
  induction fuel as [|fuel IH]; intros i Hfuel; simpl.
  - replace (stop - i) with 0 by lia. by rewrite ceil_div_0.
  - destruct (Nat.ltb_spec i stop) as [Hlt|Hge].
    + rewrite (ceil_div_step (stop - i)) by lia.
      rewrite IH by lia. cbn [seq fmap list_fmap]. f_equal; [lia|].
      rewrite <- fmap_S_seq, <- list_fmap_compose.
      replace (stop - i - step) with (stop - (i + step)) by lia.
      apply list_fmap_ext. intros ? q _. simpl. lia.
    + replace (stop - i) with 0 by lia. by rewrite ceil_div_0.
Qed.

Lemma range_from_0 n step :
  0 < step → range 0 n step = (λ q, q * step) <$> seq 0 (ceil_div n step).
Proof.
  intros Hstep. unfold range. rewrite range_go_seq by lia.
  rewrite Nat.sub_0_r. done.
Qed.

Lemma range_unit n : range 0 n 1 = seq 0 n.
Proof.
  rewrite range_from_0 by lia.
  unfold ceil_div. rewrite Nat.sub_diag, Nat.add_0_r, Nat.div_1_r.
  rewrite <- (list_fmap_id (seq 0 n)) at 2.
  apply list_fmap_ext. intros ? q _. simpl. lia.
Qed.

(** ** Cutting a list into batches *)

Lemma slice_batch {A} (l : list A) (i d : nat) :
  slice i (Nat.min (i + d) (length l)) l = take d (drop i l).
Proof.
  unfold slice. destruct (decide (i + d ≤ length l)) as [Hle|Hgt].
  - rewrite Nat.min_l by lia. f_equal. lia.
  - rewrite Nat.min_r by lia.
    rewrite !take_ge; [done| |]; rewrite length_drop; lia.
Qed.

Lemma concat_batches {A} (d k : nat) (l : list A) :
  length l ≤ k * d →
  concat ((λ q, take d (drop (q * d) l)) <$> seq 0 k) = l.
Proof.
  revert l. induction k as [|k IH]; intros l Hlen.
  - destruct l; [done|simpl in Hlen; lia].
  - cbn [seq fmap list_fmap concat]. rewrite drop_0.
    rewrite <- fmap_S_seq, <- list_fmap_compose.
    transitivity (take d l ++ drop d l); [|apply take_drop].
    f_equal.
    transitivity (concat ((λ q, take d (drop (q * d) (drop d l))) <$> seq 0 k)).
    + f_equal. apply list_fmap_ext. intros ? q _. simpl.
      rewrite drop_drop. repeat f_equal; lia.
    + apply IH. rewrite length_drop. lia.
Qed.

Lemma batch_of_fmap {B} (g : nat → B) (d q n : nat) :
  take d (drop (q * d) (g <$> seq 0 n))
  = (λ j, g (q * d + j)) <$> seq 0 (length (take d (drop (q * d) (seq 0 n)))).
Proof.
  rewrite <- fmap_drop, <- fmap_take, drop_seq, take_seq.
  rewrite length_seq, Nat.add_0_l.
  rewrite <- (Nat.add_0_r (q * d)) at 1.
  rewrite <- (fmap_add_seq (q * d) 0), <- list_fmap_compose. done.
Qed.

Lemma length_batch {A B} (l : list A) (l' : list B) (d i : nat) :
  length l = length l' →
  length (take d (drop i l)) = length (take d (drop i l')).
Proof. intros Hlen. rewrite !length_take, !length_drop. lia. Qed.

Section Batches.
Context `{Externals}.
Variables (chunks : list str) (filename collection_name : str).

Lemma batch_call_at (q : nat) :
  RAGService.batch_call chunks filename collection_name 100 (q * 100)
  = mkAddCall
      (take 100 (drop (q * 100) chunks))
      (take 100 (drop (q * 100)
         (metadata_at filename (length chunks) <$> seq 0 (length chunks))))
      (take 100 (drop (q * 100)
         (id_at collection_name <$> seq 0 (length chunks)))).
Proof.
  unfold RAGService.batch_call, len. rewrite slice_batch, range_unit.
  rewrite !batch_of_fmap.
  rewrite (length_batch chunks (seq 0 (length chunks)))
    by (by rewrite length_seq).
  f_equal. apply list_fmap_ext. intros i j Hj. unfold metadata_at.
  f_equal.
  apply lookup_seq in Hj as [Hi Hj]. simpl in Hi. subst i.
  rewrite length_take in Hj.
  rewrite Nat.div_mul by lia.
  rewrite (Nat.add_comm (q * 100) j), Nat.div_add by lia.
  rewrite Nat.div_small by lia. done.
Qed.

Lemma batch_calls_eq :
  batch_calls chunks filename collection_name
  = (λ q, mkAddCall
      (take 100 (drop (q * 100) chunks))
      (take 100 (drop (q * 100)
         (metadata_at filename (length chunks) <$> seq 0 (length chunks))))
      (take 100 (drop (q * 100)
         (id_at collection_name <$> seq 0 (length chunks)))))
    <$> seq 0 (ceil_div (length chunks) 100).
Proof.
  unfold batch_calls. rewrite range_from_0 by lia.
  rewrite <- list_fmap_compose. apply list_fmap_ext.
  intros ? q _. simpl. apply batch_call_at.
Qed.

Lemma batch_calls_length :
  length (batch_calls chunks filename collection_name)
  = ceil_div (length chunks) 100.
Proof. by rewrite batch_calls_eq, length_fmap, length_seq. Qed.

Lemma batch_calls_documents :
  concat (documents <$> batch_calls chunks filename collection_name) = chunks.
Proof.
  rewrite batch_calls_eq, <- list_fmap_compose.
  apply concat_batches. apply ceil_div_bounds. lia.
Qed.

Lemma batch_calls_metadatas :
  concat (metadatas <$> batch_calls chunks filename collection_name)
  = metadata_at filename (length chunks) <$> seq 0 (length chunks).
Proof.
  rewrite batch_calls_eq, <- list_fmap_compose.
  apply (concat_batches 100 _
           (metadata_at filename (length chunks) <$> seq 0 (length chunks))).
  rewrite length_fmap, length_seq. apply ceil_div_bounds. lia.
Qed.

Lemma batch_calls_ids :
  concat (ids <$> batch_calls chunks filename collection_name)
  = id_at collection_name <$> seq 0 (length chunks).
Proof.
  rewrite batch_calls_eq, <- list_fmap_compose.
  apply (concat_batches 100 _
           (id_at collection_name <$> seq 0 (length chunks))).
  rewrite length_fmap, length_seq. apply ceil_div_bounds. lia.
Qed.

End Batches.

(** ** The state monad and the log of calls *)

(** A run whose outcome is [r] ends in its final state with [r]. *)
Lemma run_outcome {S R} (run : S * R) (r : R) :
  run.2 = r → run = (run.1, r).
Proof. destruct run. simpl. by intros ->. Qed.

Lemma add_call_eta (c : AddCall) :
  mkAddCall (documents c) (metadatas c) (ids c) = c.
Proof. by destruct c. Qed.

Section Log.
Context `{Externals}.

Lemma add_documents_log collection c w w' r :
  ChromaService.add_documents collection
    (documents c) (metadatas c) (ids c) w = (w', r) →
  add_calls w' = add_calls w ++ [c] ∧ IMAGE_CACHE w' = IMAGE_CACHE w.
Proof.
  unfold ChromaService.add_documents. rewrite add_call_eta.
  destruct (collection_add collection c (db w)) as [s r'].
  intros [= <- _]. done.
Qed.

Lemma on_db_frame {A} (f : Store → Store * result A) w w' r :
  on_db f w = (w', r) →
  add_calls w' = add_calls w ∧ IMAGE_CACHE w' = IMAGE_CACHE w.
Proof.
  unfold on_db. destruct (f (db w)) as [s r']. intros [= <- _]. done.
Qed.

(** A loop of [add_documents] calls that ends without an exception has
    made one call per item, in order, and has left the image cache
    alone. *)
Lemma for_each_add_log collection (F : nat → AddCall) (xs : list nat) w w' :
  for_each xs (λ i,
    ChromaService.add_documents collection
      (documents (F i)) (metadatas (F i)) (ids (F i))) w = (w', Ok tt) →
  add_calls w' = add_calls w ++ (F <$> xs) ∧ IMAGE_CACHE w' = IMAGE_CACHE w.
Proof.
  revert w. induction xs as [|x xs IH]; intros w; simpl.
  - unfold ret. intros [= <-]. by rewrite app_nil_r.
  - unfold bind.
    destruct (ChromaService.add_documents _ _ _ _ w) as [w1 [[]|e]] eqn:Hadd;
      [|discriminate].
    apply add_documents_log in Hadd as [Hlog Hcache].
    intros Hrest. apply IH in Hrest as [Hlog' Hcache'].
    rewrite Hlog', Hlog, Hcache', Hcache, <- app_assoc. done.
Qed.

(** Whatever the outcome, the calls made are the first calls prepared. *)
Lemma for_each_add_log_prefix collection (F : nat → AddCall) xs w w' r :
  for_each xs (λ i,
    ChromaService.add_documents collection
      (documents (F i)) (metadatas (F i)) (ids (F i))) w = (w', r) →
  ∃ n, n ≤ length xs ∧ add_calls w' = add_calls w ++ (F <$> take n xs)
       ∧ IMAGE_CACHE w' = IMAGE_CACHE w.
Proof.
  revert w. induction xs as [|x xs IH]; intros w; simpl.
  - unfold ret. intros [= <- _]. exists 0. by rewrite app_nil_r.
  - unfold bind.
    destruct (ChromaService.add_documents _ _ _ _ w) as [w1 [[]|e]] eqn:Hadd;
      apply add_documents_log in Hadd as [Hlog Hcache].
    + intros Hrest. apply IH in Hrest as (n & Hn & Hlog' & Hcache').
      exists (S n). split; [lia|].
      rewrite Hlog', Hlog, Hcache', Hcache, <- app_assoc. done.
    + intros [= <- _]. exists 1. split; [lia|].
      by rewrite Hlog, Hcache.
Qed.

Lemma store_chunks_log collection chunks filename collection_name w w' :
  RAGService._store_chunks_in_batches collection chunks filename
    collection_name w = (w', Ok tt) →
  add_calls w' = add_calls w ++ batch_calls chunks filename collection_name
  ∧ IMAGE_CACHE w' = IMAGE_CACHE w.
Proof. apply for_each_add_log. Qed.

End Log.

(** ** Ids are distinct *)

Lemma N_of_ascii_inj : Inj (=) (=) N_of_ascii.
Proof.
  intros a b Hab.
  rewrite <- (ascii_N_embedding a), <- (ascii_N_embedding b). by f_equal.
Qed.

Lemma lit_inj : Inj (=) (=) lit.
Proof.
  intros s1 s2 Heq. unfold lit in Heq.
  apply (list_fmap_eq_inj N_of_ascii N_of_ascii_inj) in Heq.
  rewrite <- (string_of_list_ascii_of_string s1),
          <- (string_of_list_ascii_of_string s2). by f_equal.
Qed.

Lemma id_at_inj collection_name : Inj (=) (=) (id_at collection_name).
Proof.
  intros k1 k2 Heq. unfold id_at, str_of_nat in Heq.
  do 2 apply app_inv_head in Heq.
  apply lit_inj in Heq. by apply (inj pretty) in Heq.
Qed.

(** ** Batched storage *)

(** C1. Storing [N] chunks makes exactly [ceil(N/100)] add-documents calls
    on the vector store, none with more than 100 documents, and the
    [documents] arguments of those calls, put end to end in call order,
    are the chunk sequence. This holds for every chunk sequence, the empty
    one included (no call), when no call fails: an exception of the store
    ends the loop. *)
Theorem store_chunks_call_count `{Externals} (collection : Collection)
    (chunks : list str) (filename collection_name : str) (w w' : World) :
  RAGService._store_chunks_in_batches collection chunks filename
    collection_name w = (w', Ok tt) →
  ∃ calls : list AddCall,
    add_calls w' = add_calls w ++ calls
    ∧ length calls = ceil_div (length chunks) 100
    ∧ concat (documents <$> calls) = chunks
    ∧ Forall (λ c, length (documents c) ≤ 100) calls.
Proof.
  intros Hrun. apply store_chunks_log in Hrun as [Hlog _].
  exists (batch_calls chunks filename collection_name).
  split; [done|]. split; [apply batch_calls_length|].
  split; [apply batch_calls_documents|].
  rewrite batch_calls_eq. apply Forall_fmap, Forall_forall.
  intros q _. simpl. rewrite length_take. lia.
Qed.

Lemma store_chunks_call_count_witness :
  ∃ calls : list AddCall,
    add_calls Demo.stored_world = add_calls Demo.ready_world ++ calls
    ∧ length calls = ceil_div (length Demo.chunks250) 100
    ∧ concat (documents <$> calls) = Demo.chunks250
    ∧ Forall (λ c, length (documents c) ≤ 100) calls.
Proof.
  apply (store_chunks_call_count (H := Demo.externals)
           (mkCollection Demo.doc) Demo.chunks250 (lit "notes.txt") Demo.doc
           Demo.ready_world Demo.stored_world).
  apply run_outcome. vm_compute. reflexivity.
Defined.

(** C2. In an ingestion of [N] chunks into collection [C] that ends
    without an exception, the chunk at position [k] is stored with the
    metadata [chunk_index = k], [total_chunks = N], [batch_id = k // 100]
    and with the id [C_k]. The ids of the ingestion are pairwise distinct;
    the batch ids start at 0, do not decrease with the position, and equal
    the number of the call that carries the chunk. *)
Theorem chunk_metadata_and_ids `{Externals} (collection : Collection)
    (chunks : list str) (filename collection_name : str) (w w' : World)
    (k : nat) :
  RAGService._store_chunks_in_batches collection chunks filename
    collection_name w = (w', Ok tt) →
  k < length chunks →
  ∃ calls : list AddCall,
    add_calls w' = add_calls w ++ calls
    ∧ concat (documents <$> calls) !! k = chunks !! k
    ∧ concat (metadatas <$> calls) !! k
      = Some (mkMetadata filename k (length chunks) (k / 100))
    ∧ concat (ids <$> calls) !! k
      = Some (collection_name ++ lit "_" ++ str_of_nat k)
    ∧ NoDup (concat (ids <$> calls))
    ∧ (∀ m, concat (metadatas <$> calls) !! 0 = Some m → md_batch_id m = 0)
    ∧ (∀ k1 k2 m1 m2,
         k1 ≤ k2 →
         concat (metadatas <$> calls) !! k1 = Some m1 →
         concat (metadatas <$> calls) !! k2 = Some m2 →
         md_batch_id m1 ≤ md_batch_id m2)
    ∧ (∀ q c m,
         calls !! q = Some c → m ∈ metadatas c → md_batch_id m = q).
Proof.
  intros Hrun Hk. apply store_chunks_log in Hrun as [Hlog _].
  exists (batch_calls chunks filename collection_name).
  split; [done|].
  rewrite batch_calls_documents, batch_calls_metadatas, batch_calls_ids.
  assert (Hmeta : ∀ i m,
    (metadata_at filename (length chunks) <$> seq 0 (length chunks)) !! i
      = Some m → m = metadata_at filename (length chunks) i).
  { intros i m Hi. apply list_lookup_fmap_Some in Hi as (j & -> & Hj).
    apply lookup_seq in Hj as [-> _]. done. }
  repeat split.
  - rewrite list_lookup_fmap, lookup_seq_lt by done. done.
  - rewrite list_lookup_fmap, lookup_seq_lt by done. done.
  - apply (NoDup_fmap_2 (id_at collection_name)
             (Inj0 := id_at_inj collection_name)), NoDup_seq.
  - intros m Hm. apply Hmeta in Hm as ->. done.
  - intros k1 k2 m1 m2 Hle Hm1 Hm2.
    apply Hmeta in Hm1 as ->. apply Hmeta in Hm2 as ->.
    unfold metadata_at. cbn [md_batch_id].
    apply Nat.Div0.div_le_mono. done.
  - intros q c m Hc Hm. rewrite batch_calls_eq in Hc.
    apply list_lookup_fmap_Some in Hc as (q' & -> & Hq').
    apply lookup_seq in Hq' as [Hq _]. simpl in Hq. subst q'.
    cbn [metadatas] in Hm.
    rewrite batch_of_fmap in Hm.
    apply list_elem_of_fmap in Hm as (j & -> & Hj).
    apply elem_of_seq in Hj as [_ Hj]. rewrite length_take in Hj.
    unfold metadata_at. cbn [md_batch_id].
    rewrite (Nat.add_comm (q * 100) j), Nat.div_add by lia.
    rewrite Nat.div_small by lia. done.
Qed.

Lemma chunk_metadata_and_ids_witness :
  ∃ calls : list AddCall,
    add_calls Demo.stored_world = add_calls Demo.ready_world ++ calls
    ∧ concat (documents <$> calls) !! 217 = Demo.chunks250 !! 217
    ∧ concat (metadatas <$> calls) !! 217
      = Some (mkMetadata (lit "notes.txt") 217 (length Demo.chunks250)
                (217 / 100))
    ∧ concat (ids <$> calls) !! 217
      = Some (Demo.doc ++ lit "_" ++ str_of_nat 217)
    ∧ NoDup (concat (ids <$> calls))
    ∧ (∀ m, concat (metadatas <$> calls) !! 0 = Some m → md_batch_id m = 0)
    ∧ (∀ k1 k2 m1 m2,
         k1 ≤ k2 →
         concat (metadatas <$> calls) !! k1 = Some m1 →
         concat (metadatas <$> calls) !! k2 = Some m2 →
         md_batch_id m1 ≤ md_batch_id m2)
    ∧ (∀ q c m,
         calls !! q = Some c → m ∈ metadatas c → md_batch_id m = q).
Proof.
  apply (chunk_metadata_and_ids (H := Demo.externals)
           (mkCollection Demo.doc) Demo.chunks250 (lit "notes.txt") Demo.doc
           Demo.ready_world Demo.stored_world 217).
  - apply run_outcome. vm_compute. reflexivity.
  - vm_compute. lia.
Defined.

(** ** The extension of a file name *)

Lemma lower_char_dot (c : N) : lower_char c = 46%N ↔ c = 46%N.
Proof.
  unfold lower_char.
  destruct (N.leb_spec 65 c), (N.leb_spec c 90); simpl; lia.
Qed.

Lemma lower_dot (s : str) : 46%N ∈ lower s ↔ 46%N ∈ s.
Proof.
  unfold lower. rewrite list_elem_of_fmap. split.
  - intros (c & Hc & Hin). symmetry in Hc.
    apply lower_char_dot in Hc as ->. done.
  - intros Hin. exists 46%N. done.
Qed.

Lemma split_go_no_sep (sep : N) (cur s : str) :
  sep ∉ s → split_go sep cur s = [rev cur ++ s].
Proof.
  revert cur. induction s as [|c s IH]; intros cur Hsep; simpl.
  - by rewrite app_nil_r.
  - apply not_elem_of_cons in Hsep as [Hc Hs].
    destruct (N.eqb_spec c sep) as [->|_]; [done|].
    rewrite IH by done. simpl. by rewrite <- app_assoc.
Qed.

Lemma split_go_last (sep : N) (cur pre ext : str) :
  sep ∉ ext → list.last (split_go sep cur (pre ++ sep :: ext)) = Some ext.
Proof.
  intros Hext. revert cur. induction pre as [|c pre IH]; intros cur; simpl.
  - rewrite N.eqb_refl, split_go_no_sep by done. done.
  - destruct (N.eqb_spec c sep) as [->|_]; [|apply IH].
    rewrite last_cons, IH. done.
Qed.

Lemma file_extension_no_dot (filename : str) :
  46%N ∉ filename →
  RAGService.file_extension_of filename = Ok (lower filename).
Proof.
  intros Hdot. unfold RAGService.file_extension_of, split, last_item.
  rewrite split_go_no_sep by (by rewrite lower_dot). done.
Qed.

Lemma file_extension_suffix (filename pre ext : str) :
  lower filename = pre ++ 46%N :: ext → 46%N ∉ ext →
  RAGService.file_extension_of filename = Ok ext.
Proof.
  intros Hname Hext. unfold RAGService.file_extension_of, split, last_item.
  rewrite Hname, split_go_last by done. done.
Qed.

(** The extension is always defined: [split] never gives an empty list. *)
Lemma file_extension_total (filename : str) :
  ∃ ext, RAGService.file_extension_of filename = Ok ext
         ∧ (46%N ∉ ext) ∧ (ext `suffix_of` lower filename).
Proof.
  destruct (decide (46%N ∈ lower filename)) as [Hin|Hout].
  - assert (∃ pre ext, lower filename = pre ++ 46%N :: ext ∧ 46%N ∉ ext)
      as (pre & ext & Heq & Hext).
    { induction (lower filename) as [|c s IH];
        [by apply elem_of_nil in Hin|].
      destruct (decide (46%N ∈ s)) as [Hs|Hs].
      - destruct (IH Hs) as (pre & ext & -> & Hext).
        by exists (c :: pre), ext.
      - apply elem_of_cons in Hin as [<-|?]; [|done].
        by exists [], s. }
    exists ext. split; [by eapply file_extension_suffix|]. split; [done|].
    rewrite Heq. by exists (pre ++ [46%N]); rewrite <- app_assoc.
  - exists (lower filename). split; [|done].
    apply file_extension_no_dot. by rewrite <- lower_dot.
Qed.

(** ** Dispatch on the extension *)

Section Dispatch.
Context `{Externals}.

Lemma extract_unsupported (file_bytes : bytes) (ext : str) (w : World) :
  ext ≠ lit "pdf" → ext ≠ lit "docx" → ext ≠ lit "txt" →
  RAGService.extract_by_extension file_bytes ext w
  = (w, Err (ValueError (lit "Unsupported file type: " ++ ext))).
Proof.
  intros Hpdf Hdocx Htxt. unfold RAGService.extract_by_extension, str_eqb.
  rewrite !bool_decide_eq_false_2 by done. done.
Qed.

Lemma process_document_unfold (file_bytes : bytes)
    (filename collection_name ext : str) (w : World) :
  RAGService.file_extension_of filename = Ok ext →
  RAGService.process_document file_bytes filename collection_name w
  = try_except
      (extracted <- RAGService.extract_by_extension file_bytes ext ;;
       RAGService.cache_and_store extracted.1 extracted.2 filename
         collection_name)
      (λ e, raise e) w.
Proof.
  intros Hext. unfold RAGService.process_document, try_except, bind, lift.
  rewrite Hext. done.
Qed.

End Dispatch.

(** C3, as amended. Both operations dispatch on the extension, the part of
    the lower-cased file name after its last full stop. When it is none of
    [pdf], [docx] and [txt], ingestion ([process_document]) fails with the
    unsupported-format error and leaves the state as it was, while
    [extract_text_from_file] falls back on decoding the bytes as UTF-8: it
    returns the text when they decode, and fails otherwise. *)
Theorem unsupported_extension `{Externals} (file_bytes : bytes)
    (filename collection_name ext : str) (w : World) :
  RAGService.file_extension_of filename = Ok ext →
  ext ≠ lit "pdf" → ext ≠ lit "docx" → ext ≠ lit "txt" →
  RAGService.process_document file_bytes filename collection_name w
  = (w, Err (ValueError (lit "Unsupported file type: " ++ ext)))
  ∧ RAGService.extract_text_from_file file_bytes filename
    = match decode_utf8 file_bytes with
      | Some text => Ok text
      | None =>
          Err (PyException (lit "Failed to extract text from " ++ filename
                            ++ lit ": " ++ exn_str UnicodeDecodeError))
      end.
Proof.
  intros Hext Hpdf Hdocx Htxt. split.
  - rewrite (process_document_unfold _ _ _ ext) by done.
    unfold try_except, bind. rewrite extract_unsupported by done. done.
  - unfold RAGService.extract_text_from_file, str_eqb. rewrite Hext.
    rewrite !bool_decide_eq_false_2 by done.
    unfold RAGService.decode. by destruct (decode_utf8 file_bytes).
Qed.

Lemma unsupported_extension_witness :
  RAGService.process_document (H := Demo.externals) (bytes_lit "hello")
    (lit "notes.md") Demo.doc Demo.ready_world
  = (Demo.ready_world, Err (ValueError (lit "Unsupported file type: md")))
  ∧ RAGService.extract_text_from_file (H := Demo.externals)
      (bytes_lit "hello") (lit "notes.md")
    = Ok (lit "hello").
Proof.
  apply (unsupported_extension (H := Demo.externals) (bytes_lit "hello")
           (lit "notes.md") Demo.doc (lit "md") Demo.ready_world).
  - reflexivity.
  - vm_compute. discriminate.
  - vm_compute. discriminate.
  - vm_compute. discriminate.
Defined.

(** C3, as stated, fails: the extension [md] is none of the three, and
    [extract_text_from_file] returns the decoded text instead of failing
    with an unsupported-format error. *)
Lemma unsupported_extension_is_decoded :
  RAGService.file_extension_of (lit "notes.md") = Ok (lit "md")
  ∧ lit "md" ≠ lit "pdf" ∧ lit "md" ≠ lit "docx"
  ∧ lit "md" ≠ lit "txt"
  ∧ RAGService.extract_text_from_file (H := Demo.externals)
      (bytes_lit "hello") (lit "notes.md")
    = Ok (lit "hello").
Proof. repeat split; (reflexivity || (vm_compute; discriminate)). Qed.

(** C10. The extension is what follows the last full stop of the
    lower-cased file name, so for a file name without a full stop it is
    the whole lower-cased name, and such a file is ingested by its name:
    a file named [pdf] goes to the PDF extractor and a file named [txt] is
    decoded as UTF-8; neither is refused as having no extension. *)
Theorem extension_without_dot `{Externals} (file_bytes : bytes)
    (filename collection_name : str) (w : World) :
  46%N ∉ filename →
  RAGService.file_extension_of filename = Ok (lower filename)
  ∧ (∀ name pre ext : str,
       lower name = pre ++ 46%N :: ext → 46%N ∉ ext →
       RAGService.file_extension_of name = Ok ext)
  ∧ RAGService.process_document file_bytes filename collection_name w
    = try_except
        (extracted <-
           RAGService.extract_by_extension file_bytes (lower filename) ;;
         RAGService.cache_and_store extracted.1 extracted.2 filename
           collection_name)
        (λ e, raise e) w
  ∧ RAGService.process_document file_bytes (lit "pdf") collection_name w
    = try_except
        (extracted <-
           lift (RAGService._extract_text_and_images_from_pdf file_bytes) ;;
         RAGService.cache_and_store extracted.1 extracted.2 (lit "pdf")
           collection_name)
        (λ e, raise e) w
  ∧ RAGService.process_document file_bytes (lit "txt") collection_name w
    = try_except
        (text_content <- lift (RAGService.decode file_bytes) ;;
         RAGService.cache_and_store text_content [] (lit "txt")
           collection_name)
        (λ e, raise e) w
  ∧ RAGService.extract_text_from_file file_bytes (lit "pdf")
    = match RAGService._extract_text_and_images_from_pdf file_bytes with
      | Ok (text, _) => Ok text
      | Err e =>
          Err (PyException (lit "Failed to extract text from pdf: "
                            ++ exn_str e))
      end
  ∧ RAGService.extract_text_from_file file_bytes (lit "txt")
    = match decode_utf8 file_bytes with
      | Some text => Ok text
      | None =>
          Err (PyException (lit "Failed to extract text from txt: "
                            ++ exn_str UnicodeDecodeError))
      end.
Proof.
  intros Hdot. split; [by apply file_extension_no_dot|].
  split; [apply file_extension_suffix|].
  split; [by apply process_document_unfold, file_extension_no_dot|].
  split; [by rewrite (process_document_unfold _ _ _ (lit "pdf"))|].
  split.
  - rewrite (process_document_unfold _ _ _ (lit "txt")) by done.
    unfold try_except, bind, lift, ret, RAGService.extract_by_extension.
    simpl. by destruct (RAGService.decode file_bytes).
  - split.
    + unfold RAGService.extract_text_from_file. simpl.
      by destruct (RAGService._extract_text_and_images_from_pdf file_bytes)
        as [[??]|?].
    + unfold RAGService.extract_text_from_file, RAGService.decode. simpl.
      by destruct (decode_utf8 file_bytes).
Qed.

Lemma extension_without_dot_witness :
  RAGService.file_extension_of (lit "README") = Ok (lit "readme").
Proof.
  apply (extension_without_dot (H := Demo.externals) (bytes_lit "hello")
           (lit "README") Demo.doc Demo.ready_world).
  vm_compute. intros Hin. by repeat (apply elem_of_cons in Hin as [?|Hin];
    [discriminate|]); apply elem_of_nil in Hin.
Defined.

(** ** Answering *)

Lemma join_nil_sep (sep : str) : join sep [] = [].
Proof. done. Qed.

(** C5. The text context assembled from the retrieved chunks is their
    join by the separator when that join has at most 4000 characters, and
    otherwise its first 4000 characters followed by the ellipsis; in both
    cases it has at most 4000 characters plus the length of the ellipsis.
    It is the text context handed to the generation model. *)
Theorem text_context_bounded (chunks : list str) (rest : list (list str))
    (query : str) (images_context : list Image) :
  let joined := join RAGService.separator chunks in
  let text_context :=
    RAGService.text_context_of (mkQueryResult (Some (chunks :: rest))) in
  length text_context ≤ 4000 + length RAGService.ellipsis
  ∧ (length joined ≤ 4000 → text_context = joined)
  ∧ (4000 < length joined → text_context = take 4000 joined ++ lit "...")
  ∧ (text_context ≠ [] →
     Text text_context
       ∈ RAGService.prompt_parts_of query text_context images_context).
Proof.
  intros joined text_context.
  assert (Hctx : text_context
    = if (4000 <? length joined) then take 4000 joined ++ lit "..."
      else joined).
  { unfold text_context, RAGService.text_context_of. cbn [qr_documents].
    destruct chunks as [|c chunks']; [|done].
    unfold joined. rewrite join_nil_sep.
    change (length (@nil N)) with 0.
    destruct (Nat.ltb_spec 4000 0); [lia|done]. }
  split; [|split; [|split]].
  - rewrite Hctx. destruct (Nat.ltb_spec 4000 (length joined)).
    + rewrite length_app, length_take. unfold RAGService.ellipsis. lia.
    + lia.
  - intros Hle. rewrite Hctx.
    destruct (Nat.ltb_spec 4000 (length joined)); [lia|done].
  - intros Hlt. rewrite Hctx.
    destruct (Nat.ltb_spec 4000 (length joined)); [done|lia].
  - intros Hne. unfold RAGService.prompt_parts_of.
    destruct text_context as [|c t]; [done|]. cbn [truthy].
    destruct (truthy images_context);
      rewrite !elem_of_app, !elem_of_cons; auto 10.
Qed.

Section Answer.
Context `{Externals}.

Lemma retrieve_frame query collection_name w w' r :
  retrieve query collection_name w = (w', r) →
  IMAGE_CACHE w' = IMAGE_CACHE w ∧ add_calls w' = add_calls w.
Proof.
  unfold retrieve, bind, ChromaService.get_or_create_collection,
    ChromaService.query.
  destruct (on_db _ w) as [w1 [c|e]] eqn:H1;
    apply on_db_frame in H1 as [Hlog1 Hcache1].
  - intros H2. apply on_db_frame in H2 as [Hlog2 Hcache2].
    split; congruence.
  - intros [= <- _]. done.
Qed.

Lemma generate_response_eq query collection_name w :
  RAGService.generate_response query collection_name w
  = match retrieve query collection_name w with
    | (w', Ok results) =>
        (w', Ok (answer_of query results
                   (default [] (IMAGE_CACHE w' !! collection_name))))
    | (w', Err _) => (w', Ok RAGService.error_message)
    end.
Proof.
  unfold RAGService.generate_response, retrieve, try_except, bind, lift, ret,
    RAGService.cache_get, answer_of.
  destruct (ChromaService.get_or_create_collection collection_name w)
    as [w1 [c|e]]; [|done].
  destruct (ChromaService.query c [query] 5 w1) as [w2 [results|e]]; [|done].
  destruct (generate_content _) as [response|e]; [|done].
  destruct (text response) as [[|c' t]|e]; done.
Qed.

End Answer.

(** C4. For every query and collection name, [generate_response] returns a
    string and never raises. When retrieval raises, the string is the
    fixed message that contains "encountered an error"; so it is when the
    generation call or the reading of its text raises. When the model
    gives an empty text, the string is the fixed message that contains
    "couldn't generate a response". Otherwise it is the text of the
    model. *)
Theorem generate_response_never_raises `{Externals}
    (query collection_name : str) (w : World) :
  ∃ (w' : World) (answer : str),
    RAGService.generate_response query collection_name w = (w', Ok answer)
    ∧ IMAGE_CACHE w' = IMAGE_CACHE w
    ∧ (∀ e, (retrieve query collection_name w).2 = Err e →
         answer = RAGService.error_message)
    ∧ (∀ results, (retrieve query collection_name w).2 = Ok results →
         let prompt :=
           RAGService.prompt_parts_of query
             (RAGService.text_context_of results)
             (default [] (IMAGE_CACHE w !! collection_name)) in
         match generate_content prompt with
         | Err _ => answer = RAGService.error_message
         | Ok response =>
             match text response with
             | Err _ => answer = RAGService.error_message
             | Ok [] => answer = RAGService.no_response_message
             | Ok model_text => answer = model_text
             end
         end)
    ∧ contains (lit "encountered an error") RAGService.error_message = true
    ∧ contains (lit "couldn't generate a response")
        RAGService.no_response_message = true.
Proof.
  rewrite generate_response_eq.
  destruct (retrieve query collection_name w) as [w1 [results|e]] eqn:Hret;
    apply retrieve_frame in Hret as [Hcache _]; eexists _, _;
    (split; [done|]); (split; [done|]); (split; [|split; [|by vm_compute]]).
  - intros e [=].
  - intros results' [= <-]. rewrite Hcache. unfold answer_of. simpl.
    destruct (generate_content _) as [response|e]; [|done].
    by destruct (text response) as [[|c' t]|e].
  - done.
  - intros results' [=].
Qed.

(** ** Image optimisation *)






(** ** The image cache *)

Section Cache.
Context `{Externals}.

Lemma extract_by_extension_pure file_bytes ext w w' r :
  RAGService.extract_by_extension file_bytes ext w = (w', r) → w' = w.
Proof.
  unfold RAGService.extract_by_extension, lift, bind, ret, raise.
  repeat case_match; by intros [= <- _].
Qed.

Lemma store_chunks_frame collection chunks filename collection_name w w' r :
  RAGService._store_chunks_in_batches collection chunks filename
    collection_name w = (w', r) →
  IMAGE_CACHE w' = IMAGE_CACHE w.
Proof.
  intros Hrun. apply for_each_add_log_prefix in Hrun as (n & _ & _ & Hcache).
  done.
Qed.

(** The chunking and storing part of [process_document] leaves the image
    cache alone, whatever its outcome. *)
Lemma store_text_frame text_content filename collection_name w w' r :
  when (truthy (strip text_content))
    (chunks <- lift (split_text text_content) ;;
     when (truthy chunks)
       (collection <-
          ChromaService.get_or_create_collection collection_name ;;
        RAGService._store_chunks_in_batches collection chunks filename
          collection_name)) w = (w', r) →
  IMAGE_CACHE w' = IMAGE_CACHE w.
Proof.
  unfold when, bind, lift, ret.
  destruct (truthy (strip text_content)); [|by intros [= <- _]].
  destruct (split_text text_content) as [chunks|e]; [|by intros [= <- _]].
  destruct (truthy chunks); [|by intros [= <- _]].
  destruct (ChromaService.get_or_create_collection collection_name w)
    as [w1 [collection|e]] eqn:Hget;
    apply on_db_frame in Hget as [_ Hcache1].
  - intros Hstore. apply store_chunks_frame in Hstore. congruence.
  - by intros [= <- _].
Qed.

(** What [cache_and_store] does to the image cache when it ends without
    an exception. *)
Lemma cache_and_store_cache text_content images filename collection_name
    w w' :
  RAGService.cache_and_store text_content images filename collection_name w
  = (w', Ok tt) →
  IMAGE_CACHE w'
  = if truthy images
    then <[collection_name := RAGService._optimize_image <$> images]>
           (IMAGE_CACHE w)
    else IMAGE_CACHE w.
Proof.
  unfold RAGService.cache_and_store.
  unfold bind at 1. unfold when at 1.
  destruct (negb (truthy (strip text_content)) && negb (truthy images));
    [discriminate|].
  unfold ret at 1. unfold bind at 1. unfold when at 1.
  destruct (truthy images).
  - unfold RAGService.cache_store at 1.
    intros Hstore. apply store_text_frame in Hstore. done.
  - unfold ret at 1. intros Hstore. by apply store_text_frame in Hstore.
Qed.

End Cache.

(** C8, as amended. After an ingestion into collection [C] that ends
    without an exception, the entry of the image cache for [C] is the
    sequence of the optimised images of the document when the document
    has at least one qualifying image: an older entry is overwritten.
    When it has none, the cache is left as it was, an older entry for [C]
    included. The entries of the other collections never change. *)
Theorem reingestion_image_cache `{Externals} (file_bytes : bytes)
    (filename collection_name : str) (w w' : World) :
  RAGService.process_document file_bytes filename collection_name w
  = (w', Ok tt) →
  ∃ (ext text_content : str) (images : list Image),
    RAGService.file_extension_of filename = Ok ext
    ∧ RAGService.extract_by_extension file_bytes ext w
      = (w, Ok (text_content, images))
    ∧ (images ≠ [] →
       IMAGE_CACHE w' !! collection_name
       = Some (RAGService._optimize_image <$> images))
    ∧ (images = [] → IMAGE_CACHE w' = IMAGE_CACHE w)
    ∧ (∀ other, other ≠ collection_name →
       IMAGE_CACHE w' !! other = IMAGE_CACHE w !! other).
Proof.
  intros Hrun.
  destruct (file_extension_total filename) as (ext & Hext & _).
  rewrite (process_document_unfold _ _ _ ext) in Hrun by done.
  unfold try_except, bind in Hrun.
  destruct (RAGService.extract_by_extension file_bytes ext w)
    as [w1 [[text_content images]|e]] eqn:Hextract; [|discriminate].
  pose proof (extract_by_extension_pure _ _ _ _ _ Hextract) as ->.
  cbn [fst snd] in Hrun.
  destruct (RAGService.cache_and_store _ _ _ _ w) as [w2 [[]|e]] eqn:Hstore;
    [|discriminate].
  injection Hrun as ->.
  apply cache_and_store_cache in Hstore.
  exists ext, text_content, images. split; [done|]. split; [done|].
  destruct images as [|image images]; cbn [truthy] in Hstore.
  - split; [done|]. split; [done|]. intros. by rewrite Hstore.
  - split; [intros _; by rewrite Hstore, lookup_insert_eq|].
    split; [done|]. intros other Hother.
    by rewrite Hstore, lookup_insert_ne.
Qed.

Lemma reingestion_image_cache_witness :
  ∃ (ext text_content : str) (images : list Image),
    RAGService.file_extension_of (lit "scan.pdf") = Ok ext
    ∧ RAGService.extract_by_extension (H := Demo.externals) Demo.two_pages
        ext Demo.cached_world
      = (Demo.cached_world, Ok (text_content, images))
    ∧ (images ≠ [] →
       IMAGE_CACHE Demo.reingested_world !! Demo.doc
       = Some (RAGService._optimize_image (H := Demo.externals)
                 <$> images))
    ∧ (images = [] →
       IMAGE_CACHE Demo.reingested_world = IMAGE_CACHE Demo.cached_world)
    ∧ (∀ other, other ≠ Demo.doc →
       IMAGE_CACHE Demo.reingested_world !! other
       = IMAGE_CACHE Demo.cached_world !! other).
Proof.
  apply (reingestion_image_cache (H := Demo.externals) Demo.two_pages
           (lit "scan.pdf") Demo.doc Demo.cached_world
           Demo.reingested_world).
  apply run_outcome. vm_compute. reflexivity.
Defined.

(** The re-ingestion above overwrites the old picture by the two pictures
    of the PDF, converted to RGB. *)
Example reingestion_overwrites :
  IMAGE_CACHE Demo.cached_world !! Demo.doc = Some [Demo.old_picture]
  ∧ IMAGE_CACHE Demo.reingested_world !! Demo.doc
    = Some [ mkImage 100 100 (lit "RGB") 100 true;
             mkImage 100 100 (lit "RGB") 100 true ].
Proof. split; vm_compute; reflexivity. Qed.

(** C8, as stated, fails for a document without images: a text file is
    ingested, without an exception, into a collection that has a picture in
    the cache; the document has no image, and afterwards the entry of the
    collection is still the old picture, not the empty sequence of the
    images of the new document. *)
Lemma reingestion_without_images_keeps_entry :
  let run :=
    RAGService.process_document (H := Demo.externals)
      (bytes_lit "The sky is blue.") (lit "sky.txt") Demo.doc
      Demo.cached_world in
  run.2 = Ok tt
  ∧ RAGService.extract_by_extension (H := Demo.externals)
      (bytes_lit "The sky is blue.") (lit "txt") Demo.cached_world
    = (Demo.cached_world, Ok (lit "The sky is blue.", []))
  ∧ IMAGE_CACHE Demo.cached_world !! Demo.doc = Some [Demo.old_picture]
  ∧ IMAGE_CACHE run.1 !! Demo.doc = Some [Demo.old_picture]
  ∧ IMAGE_CACHE run.1 !! Demo.doc
    ≠ Some (RAGService._optimize_image (H := Demo.externals) <$> []).
Proof.
  assert (Hentry :
    IMAGE_CACHE
      (RAGService.process_document (H := Demo.externals)
         (bytes_lit "The sky is blue.") (lit "sky.txt") Demo.doc
         Demo.cached_world).1 !! Demo.doc
    = Some [Demo.old_picture]) by (vm_compute; reflexivity).
  cbv zeta. rewrite Hentry.
  split; [vm_compute; reflexivity|].
  split; [apply run_outcome; vm_compute; reflexivity|].
  split; [vm_compute; reflexivity|].
  split; [reflexivity|discriminate].
Qed.

(** ** Deleting a collection *)

(** C9. Deleting a collection, through the endpoint or through the
    service, leaves the image cache as it was, whether the deletion
    succeeds or raises: an entry for the collection stays. *)
Theorem delete_collection_keeps_image_cache `{Externals}
    (collection_name : str) (w : World) :
  IMAGE_CACHE (Main.delete_collection collection_name w).1 = IMAGE_CACHE w
  ∧ IMAGE_CACHE (ChromaService.delete_collection collection_name w).1
    = IMAGE_CACHE w
  ∧ (∀ images,
       IMAGE_CACHE w !! collection_name = Some images →
       IMAGE_CACHE (Main.delete_collection collection_name w).1
         !! collection_name = Some images).
Proof.
  assert (Hservice :
    IMAGE_CACHE (ChromaService.delete_collection collection_name w).1
    = IMAGE_CACHE w).
  { destruct (ChromaService.delete_collection collection_name w)
      as [w1 r] eqn:Hdel.
    by apply on_db_frame in Hdel as [_ Hcache]. }
  assert (Hendpoint :
    IMAGE_CACHE (Main.delete_collection collection_name w).1
    = IMAGE_CACHE w).
  { unfold Main.delete_collection, try_except, bind, ret, raise.
    destruct (ChromaService.delete_collection collection_name w)
      as [w1 [[]|e]]; done. }
  split; [done|]. split; [done|]. intros images. by rewrite Hendpoint.
Qed.

(** The deletion of a stored collection succeeds and removes it from the
    database; its picture is still in the cache. *)
Example delete_collection_leaves_picture :
  let w' := (Main.delete_collection (H := Demo.externals) Demo.doc
               Demo.cached_world).1 in
  is_ok (Main.delete_collection (H := Demo.externals) Demo.doc
           Demo.cached_world).2 = true
  ∧ db w' !! Demo.doc = None
  ∧ IMAGE_CACHE w' !! Demo.doc = Some [Demo.old_picture].
Proof. repeat split; vm_compute; reflexivity. Qed.

(** ** Uploading *)

(** A file above the limit starts no task, and the caller gets the error
    with status 500 that wraps the one with status 413. *)
Lemma upload_too_large `{Externals} (fresh : str * str)
    (background_tasks : list Task) (name : str) (file_bytes : bytes) :
  (Main.max_size < Z.of_nat (length file_bytes))%Z →
  Main.upload_document fresh background_tasks
    (mkUploadFile name (Ok file_bytes))
  = (background_tasks,
     Err (HTTPException 500 (exn_str Main.too_large))).
Proof.
  intros Hlarge. unfold Main.upload_document, len. cbn [read].
  destruct (Z.ltb_spec Main.max_size (Z.of_nat (length file_bytes)));
    [done|lia].
Qed.

Lemma length_oversized :
  Z.of_nat (length Demo.oversized) = (50 * 1024 * 1024 + 1)%Z.
Proof.
  unfold Demo.oversized. rewrite length_replicate, N_nat_Z. reflexivity.
Qed.

(** C7, on the code. A file of 50 MB and one byte is refused before any
    task is handed to the background runner, but the caller does not get
    the size-limit error: the [HTTPException] with status 413 is raised
    inside the [try] of [upload_document], whose [except Exception] catches
    it and raises an [HTTPException] with status 500 instead. *)
Theorem oversized_upload_surfaces_500 :
  Z.of_nat (length Demo.oversized) = (50 * 1024 * 1024 + 1)%Z
  ∧ Main.upload_document (H := Demo.externals)
      (lit "0f8fad5b-d9cb-469f-a165-70867728950e", lit "7c9e6679f4a1") []
      (mkUploadFile (lit "big.pdf") (Ok Demo.oversized))
    = ([], Err (HTTPException 500
                  (lit "413: File too large. Maximum size is 50MB."))).
Proof.
  split; [exact length_oversized|].
  rewrite upload_too_large.
  - reflexivity.
  - rewrite length_oversized. reflexivity.
Qed.

(** * Further properties of the code *)

(** ** Batches: shape, failure, ids *)

Lemma new_calls_app `{Externals} (w w' : World) (calls : list AddCall) :
  add_calls w' = add_calls w ++ calls → new_calls w w' = calls.
Proof. intros Hlog. unfold new_calls. by rewrite Hlog, drop_app_length. Qed.


Lemma batch_call_shape (chunks : list str) (filename collection_name : str)
    (q : nat) (c : AddCall) :
  batch_calls chunks filename collection_name !! q = Some c →
  length (documents c) = Nat.min 100 (length chunks - q * 100)
  ∧ length (metadatas c) = length (documents c)
  ∧ length (ids c) = length (documents c)
  ∧ q * 100 < length chunks.
Proof.
  rewrite batch_calls_eq. intros Hc.
  apply list_lookup_fmap_Some in Hc as (q' & -> & Hq).
  apply lookup_seq in Hq as [Hq' Hlt]. simpl in Hq'. subst q'.
  cbn [documents metadatas ids].
  rewrite !length_take, !length_drop, !length_fmap, !length_seq.
  pose proof (ceil_div_bounds (length chunks) 100 ltac:(lia)) as [_ Hup].
  repeat split; nia.
Qed.

(** X1. Whatever the outcome of [_store_chunks_in_batches], every call it
    made carries as many metadata records and ids as documents, at least
    one document and at most 100; a call that is followed by another one
    carries exactly 100. *)
Theorem add_calls_well_formed `{Externals} (collection : Collection)
    (chunks : list str) (filename collection_name : str) (w : World) :
  let w' :=
    (RAGService._store_chunks_in_batches collection chunks filename
       collection_name w).1 in
  Forall (λ c, length (metadatas c) = length (documents c)
               ∧ length (ids c) = length (documents c)
               ∧ 1 ≤ length (documents c) ≤ 100) (new_calls w w')
  ∧ (∀ q c, new_calls w w' !! q = Some c →
        S q < length (new_calls w w') → length (documents c) = 100).
Proof.
  intros w'. unfold w'.
  destruct (RAGService._store_chunks_in_batches _ _ _ _ w) as [w1 r] eqn:Hrun.
  cbn [fst].
  apply for_each_add_log_prefix in Hrun as (n & _ & Hlog & _).
  apply new_calls_app in Hlog. rewrite Hlog, fmap_take.
  change (RAGService.batch_call chunks filename collection_name 100
          <$> range 0 (len chunks) 100)
    with (batch_calls chunks filename collection_name).
  split.
  - apply Forall_lookup. intros q c Hq.
    apply lookup_take_Some in Hq as [Hq _].
    apply batch_call_shape in Hq as (Hd & Hm & Hi & Hlt). lia.
  - intros q c Hq Hnext.
    apply lookup_take_Some in Hq as [Hq _].
    assert (is_Some (batch_calls chunks filename collection_name !! S q))
      as [c' Hc'].
    { apply lookup_lt_is_Some. rewrite length_take in Hnext. lia. }
    apply batch_call_shape in Hq as (Hd & _).
    apply batch_call_shape in Hc' as (_ & _ & _ & Hlt). lia.
Qed.



(** X3. The ids of an ingestion depend on the collection name and on the
    position of the chunk alone: two ingestions into the same collection,
    of whatever files, give the same id to the chunks at the same
    position. *)
Theorem ids_reused_across_ingestions `{Externals}
    (collection1 collection2 : Collection) (chunks1 chunks2 : list str)
    (filename1 filename2 collection_name : str) (w1 w1' w2 w2' : World)
    (k : nat) :
  RAGService._store_chunks_in_batches collection1 chunks1 filename1
    collection_name w1 = (w1', Ok tt) →
  RAGService._store_chunks_in_batches collection2 chunks2 filename2
    collection_name w2 = (w2', Ok tt) →
  k < length chunks1 → k < length chunks2 →
  concat (ids <$> new_calls w1 w1') !! k
  = Some (collection_name ++ lit "_" ++ str_of_nat k)
  ∧ concat (ids <$> new_calls w1 w1') !! k
    = concat (ids <$> new_calls w2 w2') !! k.
Proof.
  intros Hrun1 Hrun2 Hk1 Hk2.
  apply store_chunks_log in Hrun1 as [Hlog1 _].
  apply store_chunks_log in Hrun2 as [Hlog2 _].
  rewrite (new_calls_app _ _ _ Hlog1), (new_calls_app _ _ _ Hlog2).
  rewrite !batch_calls_ids, !list_lookup_fmap, !lookup_seq_lt by done.
  done.
Qed.

Lemma ids_reused_across_ingestions_witness :
  concat (ids <$> new_calls Demo.ready_world Demo.stored_world) !! 3
  = Some (Demo.doc ++ lit "_" ++ str_of_nat 3)
  ∧ concat (ids <$> new_calls Demo.ready_world Demo.stored_world) !! 3
    = concat (ids <$> new_calls Demo.ready_world
                (RAGService._store_chunks_in_batches (H := Demo.externals)
                   (mkCollection Demo.doc) [lit "a"; lit "b"; lit "c"; lit "d"]
                   (lit "other.txt") Demo.doc Demo.ready_world).1) !! 3.
Proof.
  apply (ids_reused_across_ingestions (H := Demo.externals)
           (mkCollection Demo.doc) (mkCollection Demo.doc)
           Demo.chunks250 [lit "a"; lit "b"; lit "c"; lit "d"]
           (lit "notes.txt") (lit "other.txt") Demo.doc).
  - apply run_outcome. vm_compute. reflexivity.
  - apply run_outcome. vm_compute. reflexivity.
  - vm_compute. lia.
  - vm_compute. lia.
Defined.

(** ** Ingestion: what is extracted, cached and stored *)

Section Ingestion.
Context `{Externals}.

Lemma keep_images_filter (images : list Image) (infos : list (result Image)) :
  foldl RAGService.keep_image images infos
  = images ++ filter large_enough (omap opened infos).
Proof.
  revert images. induction infos as [|[image|e] infos IH]; intros images;
    simpl.
  - by rewrite app_nil_r.
  - rewrite IH, filter_cons.
    change (list_omap (result Image) Image opened infos)
      with (omap opened infos).
    destruct (decide (large_enough image)) as [[Hw Hh]|Hsmall].
    + apply Nat.ltb_lt in Hw, Hh. rewrite Hw, Hh. simpl.
      by rewrite <- app_assoc.
    + destruct (Nat.ltb_spec 50 (width image)),
               (Nat.ltb_spec 50 (height image)); simpl; try done.
      by destruct Hsmall.
  - apply IH.
Qed.

Lemma extract_pages_concat (text : str) (images : list Image)
    (pages : list Page) :
  foldl RAGService.extract_page (text, images) pages
  = (text ++ concat (page_text <$> pages),
     images ++ concat (page_pictures <$> pages)).
Proof.
  revert text images. induction pages as [|page pages IH];
    intros text images.
  - simpl. by rewrite !app_nil_r.
  - assert (Hpage : RAGService.extract_page (text, images) page
                    = (text ++ page_text page, images ++ page_pictures page)).
    { unfold RAGService.extract_page, page_text, page_pictures.
      destruct (get_text page) as [t|e]; [|by rewrite !app_nil_r].
      destruct (get_images page) as [infos|e].
      - by rewrite keep_images_filter.
      - by rewrite app_nil_r. }
    cbn [foldl fmap list_fmap concat].
    rewrite Hpage, IH, <- !app_assoc. done.
Qed.

(** Whatever its outcome, [cache_and_store] leaves in the image cache the
    optimised images of the document when there are some, and nothing new
    otherwise. *)
Lemma cache_and_store_cache_any text_content images filename
    collection_name w w' r :
  RAGService.cache_and_store text_content images filename collection_name w
  = (w', r) →
  IMAGE_CACHE w'
  = if truthy images
    then <[collection_name := RAGService._optimize_image <$> images]>
           (IMAGE_CACHE w)
    else IMAGE_CACHE w.
Proof.
  unfold RAGService.cache_and_store.
  unfold bind at 1. unfold when at 1.
  destruct (truthy images) eqn:Himages.
  - rewrite andb_false_r. unfold ret at 1. unfold bind at 1. unfold when at 1.
    unfold RAGService.cache_store at 1.
    intros Hstore. apply store_text_frame in Hstore. done.
  - destruct (negb (truthy (strip text_content))); simpl.
    + unfold raise. by intros [= <- _].
    + unfold ret at 1. unfold bind at 1. unfold when at 1. unfold ret at 1.
      intros Hstore. by apply store_text_frame in Hstore.
Qed.

(** [cache_and_store] does not call the database when the text is blank
    or gives no chunk. *)
Lemma cache_and_store_no_chunks text_content images filename
    collection_name w w' r :
  strip text_content = [] ∨ split_text text_content = Ok [] →
  RAGService.cache_and_store text_content images filename collection_name w
  = (w', r) →
  db w' = db w ∧ add_calls w' = add_calls w.
Proof.
  intros Hnone. unfold RAGService.cache_and_store.
  unfold bind at 1. unfold when at 1.
  destruct (negb (truthy (strip text_content)) && negb (truthy images)).
  { unfold raise. by intros [= <- _]. }
  unfold ret at 1. unfold bind at 1. unfold when at 1.
  assert (Htext : ∀ w0,
    when (truthy (strip text_content))
      (chunks <- lift (split_text text_content) ;;
       when (truthy chunks)
         (collection <-
            ChromaService.get_or_create_collection collection_name ;;
          RAGService._store_chunks_in_batches collection chunks filename
            collection_name)) w0 = (w', r) →
    db w' = db w0 ∧ add_calls w' = add_calls w0).
  { intros w0. unfold when at 1.
    destruct (truthy (strip text_content)) eqn:Hstrip;
      [|unfold ret; by intros [= <- _]].
    destruct Hnone as [Hblank|Hsplit];
      [by rewrite Hblank in Hstrip|].
    unfold bind, lift. rewrite Hsplit. simpl. unfold ret.
    by intros [= <- _]. }
  destruct (truthy images).
  - unfold RAGService.cache_store at 1. intros Hrun.
    apply Htext in Hrun. done.
  - unfold ret at 1. apply Htext.
Qed.

(** The outcome of [process_document] once the extraction is known. *)
Lemma process_document_extracted file_bytes filename collection_name ext
    text_content images w :
  RAGService.file_extension_of filename = Ok ext →
  RAGService.extract_by_extension file_bytes ext w
  = (w, Ok (text_content, images)) →
  RAGService.process_document file_bytes filename collection_name w
  = RAGService.cache_and_store text_content images filename collection_name
      w.
Proof.
  intros Hext Hextract.
  rewrite (process_document_unfold _ _ _ ext) by done.
  unfold try_except, bind, raise. rewrite Hextract. cbn [fst snd].
  by destruct (RAGService.cache_and_store _ _ _ _ w) as [w' [[]|e]].
Qed.

Lemma process_document_extract_failed file_bytes filename collection_name
    ext e w :
  RAGService.file_extension_of filename = Ok ext →
  RAGService.extract_by_extension file_bytes ext w = (w, Err e) →
  RAGService.process_document file_bytes filename collection_name w
  = (w, Err e).
Proof.
  intros Hext Hextract.
  rewrite (process_document_unfold _ _ _ ext) by done.
  unfold try_except, bind, raise. by rewrite Hextract.
Qed.

(** With images, the cache holds their optimised versions after
    [process_document], whatever its outcome. *)
Lemma process_document_caches_images file_bytes filename collection_name ext
    text_content images w :
  RAGService.file_extension_of filename = Ok ext →
  RAGService.extract_by_extension file_bytes ext w
  = (w, Ok (text_content, images)) →
  images ≠ [] →
  IMAGE_CACHE
    (RAGService.process_document file_bytes filename collection_name w).1
  = <[collection_name := RAGService._optimize_image <$> images]>
      (IMAGE_CACHE w).
Proof.
  intros Hext Hextract Himages.
  rewrite (process_document_extracted _ _ _ ext text_content images) by done.
  destruct (RAGService.cache_and_store _ _ _ _ w) as [w' r] eqn:Hstore.
  apply cache_and_store_cache_any in Hstore. cbn [fst].
  by destruct images.
Qed.

End Ingestion.

(** X4. [_extract_text_and_images_from_pdf] fails only when the document
    cannot be opened, with the exception of the opening. Otherwise its
    text is, page after page, the text of each readable page followed by a
    line feed, and its images are, in page order, the images that open and
    are more than 50 pixels wide and high, of the pages whose text and
    list of images can be read; a page or an image that raises is left
    out and the rest is kept. *)
Theorem pdf_extraction_result `{Externals} (file_bytes : bytes) :
  match fitz_open file_bytes with
  | Err e => RAGService._extract_text_and_images_from_pdf file_bytes = Err e
  | Ok pages =>
      RAGService._extract_text_and_images_from_pdf file_bytes
      = Ok (concat (page_text <$> pages), concat (page_pictures <$> pages))
      ∧ Forall (λ image, 50 < width image ∧ 50 < height image)
          (concat (page_pictures <$> pages))
  end.
Proof.
  unfold RAGService._extract_text_and_images_from_pdf.
  destruct (fitz_open file_bytes) as [pages|e]; [|done].
  split; [by rewrite extract_pages_concat|].
  apply Forall_concat, Forall_fmap, Forall_true. intros page.
  cbv beta delta [compose page_pictures].
  destruct (get_text page); [|constructor].
  destruct (get_images page); [|constructor].
  apply list.Forall_forall. intros image Himage.
  by apply list_elem_of_filter in Himage as [Hlarge _].
Qed.

(** X5. A document whose text is blank once stripped and that has no image
    is refused with the empty-document error, and nothing is cached or
    stored: the state is as it was. *)
Theorem empty_document_rejected `{Externals} (file_bytes : bytes)
    (filename collection_name ext text_content : str) (w : World) :
  RAGService.file_extension_of filename = Ok ext →
  RAGService.extract_by_extension file_bytes ext w
  = (w, Ok (text_content, [])) →
  strip text_content = [] →
  RAGService.process_document file_bytes filename collection_name w
  = (w, Err (ValueError
               (lit "Document is empty or content could not be extracted."))).
Proof.
  intros Hext Hextract Hblank.
  rewrite (process_document_extracted _ _ _ ext text_content []) by done.
  unfold RAGService.cache_and_store, bind, when. rewrite Hblank. done.
Qed.

Lemma empty_document_rejected_witness :
  RAGService.process_document (H := Demo.externals) (bytes_lit "   ")
    (lit "blank.txt") Demo.doc Demo.cached_world
  = (Demo.cached_world,
     Err (ValueError
            (lit "Document is empty or content could not be extracted."))).
Proof.
  apply (empty_document_rejected (H := Demo.externals) (bytes_lit "   ")
           (lit "blank.txt") Demo.doc (lit "txt") (lit "   ")).
  - reflexivity.
  - reflexivity.
  - reflexivity.
Defined.

(** X6. When a document has images, their optimised versions are in the
    image cache for its collection after [process_document], whatever the
    outcome: the cache is written before the chunks are stored, and an
    exception while storing does not undo it. *)
Theorem images_cached_whatever_follows `{Externals} (file_bytes : bytes)
    (filename collection_name ext text_content : str)
    (images : list Image) (w : World) :
  RAGService.file_extension_of filename = Ok ext →
  RAGService.extract_by_extension file_bytes ext w
  = (w, Ok (text_content, images)) →
  images ≠ [] →
  IMAGE_CACHE
    (RAGService.process_document file_bytes filename collection_name w).1
  = <[collection_name := RAGService._optimize_image <$> images]>
      (IMAGE_CACHE w).
Proof.
  intros Hext Hextract Himages.
  by eapply process_document_caches_images.
Qed.

Lemma images_cached_whatever_follows_witness :
  let run :=
    RAGService.process_document (H := Demo.read_only) Demo.two_pages
      (lit "scan.pdf") Demo.doc Demo.read_only_world in
  is_ok run.2 = false
  ∧ IMAGE_CACHE run.1 !! Demo.doc
    = Some [ mkImage 100 100 (lit "RGB") 100 true;
             mkImage 100 100 (lit "RGB") 100 true ].
Proof.
  intros run. split; [vm_compute; reflexivity|]. unfold run.
  rewrite (images_cached_whatever_follows (H := Demo.read_only)
             Demo.two_pages (lit "scan.pdf") Demo.doc (lit "pdf")
             [100%N; 10%N; 100%N; 10%N]
             [ mkImage 100 100 (lit "RGBA") 100 true;
               mkImage 100 100 (lit "RGBA") 100 true ]).
  - vm_compute. reflexivity.
  - reflexivity.
  - reflexivity.
  - discriminate.
Defined.

(** X7. Ingesting a file whose extension is [docx] or [txt] never changes
    the image cache, whatever the outcome. *)
Theorem text_formats_leave_image_cache `{Externals} (file_bytes : bytes)
    (filename collection_name ext : str) (w : World) :
  RAGService.file_extension_of filename = Ok ext →
  ext = lit "docx" ∨ ext = lit "txt" →
  IMAGE_CACHE
    (RAGService.process_document file_bytes filename collection_name w).1
  = IMAGE_CACHE w.
Proof.
  intros Hext Hkind.
  assert (Hextract :
    (∃ text_content, RAGService.extract_by_extension file_bytes ext w
                     = (w, Ok (text_content, [])))
    ∨ (∃ e, RAGService.extract_by_extension file_bytes ext w = (w, Err e))).
  { unfold RAGService.extract_by_extension, bind, lift, ret.
    destruct Hkind as [-> | ->]; simpl.
    - destruct (RAGService._extract_text_from_docx file_bytes); eauto.
    - destruct (RAGService.decode file_bytes); eauto. }
  destruct Hextract as [[text_content Hextract]|[e Hextract]].
  - rewrite (process_document_extracted _ _ _ ext text_content []) by done.
    destruct (RAGService.cache_and_store _ _ _ _ w) as [w' r] eqn:Hstore.
    by apply cache_and_store_cache_any in Hstore.
  - by rewrite (process_document_extract_failed _ _ _ ext e).
Qed.

Lemma text_formats_leave_image_cache_witness :
  IMAGE_CACHE
    (RAGService.process_document (H := Demo.externals)
       (bytes_lit "The sky is blue.") (lit "sky.txt") Demo.doc
       Demo.cached_world).1
  = IMAGE_CACHE Demo.cached_world.
Proof.
  apply (text_formats_leave_image_cache (H := Demo.externals)
           (bytes_lit "The sky is blue.") (lit "sky.txt") Demo.doc
           (lit "txt")).
  - reflexivity.
  - right. reflexivity.
Defined.

(** X8. When the text of a document is blank, or gives no chunk, the
    vector database is not called at all: no collection is created and no
    document is added, whatever the outcome. *)
Theorem no_chunks_no_store `{Externals} (file_bytes : bytes)
    (filename collection_name ext text_content : str)
    (images : list Image) (w : World) :
  RAGService.file_extension_of filename = Ok ext →
  RAGService.extract_by_extension file_bytes ext w
  = (w, Ok (text_content, images)) →
  strip text_content = [] ∨ split_text text_content = Ok [] →
  let w' :=
    (RAGService.process_document file_bytes filename collection_name w).1 in
  db w' = db w ∧ add_calls w' = add_calls w.
Proof.
  intros Hext Hextract Hnone w'. unfold w'.
  rewrite (process_document_extracted _ _ _ ext text_content images) by done.
  destruct (RAGService.cache_and_store _ _ _ _ w) as [w1 r] eqn:Hstore.
  by apply cache_and_store_no_chunks in Hstore.
Qed.

Lemma no_chunks_no_store_witness :
  let run :=
    RAGService.process_document (H := Demo.externals) Demo.blank_page
      (lit "scan.pdf") (lit "doc_00000000") Demo.cached_world in
  run.2 = Ok tt
  ∧ db run.1 = db Demo.cached_world
  ∧ add_calls run.1 = add_calls Demo.cached_world.
Proof.
  intros run. split; [vm_compute; reflexivity|]. unfold run.
  apply (no_chunks_no_store (H := Demo.externals) Demo.blank_page
           (lit "scan.pdf") (lit "doc_00000000") (lit "pdf")
           [160%N; 10%N]
           [mkImage 160 160 (lit "RGBA") 160 true]).
  - reflexivity.
  - reflexivity.
  - left. reflexivity.
Defined.

(** X9. [get_cache_info] gives, for each cached collection and for no
    other, the number of its images, and changes nothing. After the
    ingestion of a document with images it reports for the collection the
    number of images of the document that are more than 50 pixels wide and
    high, whatever the outcome of the ingestion. *)
Theorem cache_info_counts_images `{Externals} (file_bytes : bytes)
    (filename collection_name ext text_content : str)
    (images : list Image) (w : World) :
  RAGService.file_extension_of filename = Ok ext →
  RAGService.extract_by_extension file_bytes ext w
  = (w, Ok (text_content, images)) →
  images ≠ [] →
  let w' :=
    (RAGService.process_document file_bytes filename collection_name w).1 in
  ∃ info : gmap str nat,
    RAGService.get_cache_info w' = (w', Ok info)
    ∧ info !! collection_name = Some (length images)
    ∧ (∀ other, info !! other = length <$> IMAGE_CACHE w' !! other)
    ∧ (∀ other, other ≠ collection_name →
         info !! other = length <$> IMAGE_CACHE w !! other).
Proof.
  intros Hext Hextract Himages w'.
  pose proof (process_document_caches_images _ _ collection_name _ _ _ _
                Hext Hextract Himages) as Hcache.
  fold w' in Hcache.
  exists (length <$> IMAGE_CACHE w'). split; [done|].
  split; [|split].
  - by rewrite lookup_fmap, Hcache, lookup_insert_eq; simpl;
      rewrite length_fmap.
  - intros other. by rewrite lookup_fmap.
  - intros other Hother.
    by rewrite lookup_fmap, Hcache, lookup_insert_ne.
Qed.

Lemma cache_info_counts_images_witness :
  ∃ info : gmap str nat,
    RAGService.get_cache_info Demo.reingested_world
    = (Demo.reingested_world, Ok info)
    ∧ info !! Demo.doc = Some 2.
Proof.
  destruct (cache_info_counts_images (H := Demo.externals) Demo.two_pages
              (lit "scan.pdf") Demo.doc (lit "pdf")
              [100%N; 10%N; 100%N; 10%N]
              [ mkImage 100 100 (lit "RGBA") 100 true;
                mkImage 100 100 (lit "RGBA") 100 true ]
              Demo.cached_world)
    as (info & Hinfo & Hcount & _).
  - reflexivity.
  - reflexivity.
  - discriminate.
  - exists info. split; [exact Hinfo|exact Hcount].
Defined.

(** ** Clearing the image cache *)

(** X10. [clear_collection_cache] removes the entry of the collection and
    nothing else: the other entries, the database and the log stay, a
    later read of the collection finds no image, and clearing a collection
    that has no entry changes nothing and does not raise. *)
Theorem clear_collection_cache_removes `{Externals} (collection_name : str)
    (w : World) :
  let run := RAGService.clear_collection_cache collection_name w in
  run.2 = Ok tt
  ∧ IMAGE_CACHE run.1 !! collection_name = None
  ∧ (∀ other, other ≠ collection_name →
       IMAGE_CACHE run.1 !! other = IMAGE_CACHE w !! other)
  ∧ db run.1 = db w
  ∧ add_calls run.1 = add_calls w
  ∧ (RAGService.cache_get collection_name run.1).2 = Ok []
  ∧ (IMAGE_CACHE w !! collection_name = None → run.1 = w).
Proof.
  intros run. unfold run, RAGService.clear_collection_cache,
    RAGService.cache_get.
  destruct (IMAGE_CACHE w !! collection_name) as [images|] eqn:Hentry;
    cbn [fst snd IMAGE_CACHE db add_calls].
  - split; [done|]. split; [apply lookup_delete_eq|].
    split; [intros other Hother; by apply lookup_delete_ne|].
    split; [done|]. split; [done|].
    split; [by rewrite lookup_delete_eq|]. intros [=].
  - split; [done|]. split; [done|]. split; [done|].
    split; [done|]. split; [done|]. split; [by rewrite Hentry|done].
Qed.

(** X11. After [clear_all_cache] no collection has a cached image:
    [get_cache_info] is empty and every read of the cache gives no image;
    the database and the log of calls are as they were. *)
Theorem clear_all_cache_empties `{Externals} (w : World) :
  let run := RAGService.clear_all_cache w in
  run.2 = Ok tt
  ∧ (RAGService.get_cache_info run.1).2 = Ok ∅
  ∧ (∀ collection_name,
       (RAGService.cache_get collection_name run.1).2 = Ok [])
  ∧ db run.1 = db w
  ∧ add_calls run.1 = add_calls w.
Proof.
  intros run. unfold run, RAGService.clear_all_cache,
    RAGService.get_cache_info, RAGService.cache_get.
  cbn [fst snd IMAGE_CACHE db add_calls].
  split; [done|]. split; [by rewrite fmap_empty|].
  split; [intros c; by rewrite lookup_empty|]. done.
Qed.

(** ** Images that need no work *)

(** X12. An image that fits in 800 by 600 and is in mode RGB or L is
    returned as it is, and no Pillow operation is called on it: the result
    does not depend on the library. *)
Theorem optimize_image_leaves_small_supported `{Externals} (image : Image) :
  width image ≤ 800 → height image ≤ 600 → supported_mode (mode image) →
  RAGService._optimize_image image = image
  ∧ RAGService.optimize_body image (800, 600) = (image, Ok image).
Proof.
  intros Hw Hh Hmode.
  assert (Hbody : RAGService.optimize_body image (800, 600)
                  = (image, Ok image)).
  { unfold RAGService.optimize_body. cbn [fst snd].
    destruct (Nat.ltb_spec 800 (width image)); [lia|].
    destruct (Nat.ltb_spec 600 (height image)); [lia|].
    cbn [orb]. unfold str_eqb.
    destruct Hmode as [Hm|Hm]; rewrite Hm.
    - by rewrite (bool_decide_eq_true_2 (lit "RGB" = lit "RGB")).
    - rewrite (bool_decide_eq_true_2 (lit "L" = lit "L")) by done.
      by rewrite orb_true_r. }
  split; [|done].
  unfold RAGService._optimize_image, RAGService._optimize_image_sized.
  by rewrite Hbody.
Qed.

Lemma optimize_image_leaves_small_supported_witness :
  RAGService._optimize_image (H := Demo.read_only) Demo.old_picture
  = Demo.old_picture.
Proof.
  apply (optimize_image_leaves_small_supported (H := Demo.read_only)
           Demo.old_picture).
  - vm_compute. lia.
  - vm_compute. lia.
  - left. reflexivity.
Defined.

(** ** More on extensions and extraction *)





(** X14. On the three supported extensions [extract_text_from_file] agrees
    with the extraction of [process_document]: it returns the same text
    (without the images), and when the extraction raises it raises an
    exception whose text names the file and carries the text of the
    cause. *)
Theorem extract_text_agrees_with_ingestion `{Externals} (file_bytes : bytes)
    (filename ext : str) (w : World) :
  RAGService.file_extension_of filename = Ok ext →
  ext = lit "pdf" ∨ ext = lit "docx" ∨ ext = lit "txt" →
  match RAGService.extract_by_extension file_bytes ext w with
  | (_, Ok (text_content, _)) =>
      RAGService.extract_text_from_file file_bytes filename = Ok text_content
  | (_, Err e) =>
      RAGService.extract_text_from_file file_bytes filename
      = Err (PyException (lit "Failed to extract text from " ++ filename
                          ++ lit ": " ++ exn_str e))
  end.
Proof.
  intros Hext Hkind.
  unfold RAGService.extract_text_from_file, RAGService.extract_by_extension,
    bind, lift, ret.
  rewrite Hext.
  destruct Hkind as [-> | [-> | ->]]; simpl.
  - by destruct (RAGService._extract_text_and_images_from_pdf file_bytes)
      as [[??]|?].
  - by destruct (RAGService._extract_text_from_docx file_bytes).
  - by destruct (RAGService.decode file_bytes).
Qed.

Lemma extract_text_agrees_with_ingestion_witness :
  RAGService.extract_text_from_file (H := Demo.externals) Demo.two_pages
    (lit "Scan.PDF")
  = Ok [100%N; 10%N; 100%N; 10%N].
Proof.
  exact (extract_text_agrees_with_ingestion (H := Demo.externals)
           Demo.two_pages (lit "Scan.PDF") (lit "pdf") Demo.cached_world
           eq_refl (or_introl eq_refl)).
Defined.

(** ** The prompt *)

Lemma pictures_of_app (a b : list Part) :
  pictures_of (a ++ b) = pictures_of a ++ pictures_of b.
Proof. apply omap_app. Qed.

Lemma pictures_of_pictures (images : list Image) :
  pictures_of (Picture <$> images) = images.
Proof.
  induction images as [|image images IH]; [done|].
  cbn. f_equal. apply IH.
Qed.

(** X15. The pictures of the prompt are the cached images of the
    collection, all of them and in order. The prompt opens with the
    question; it has six text parts and a closing one, and, when there are
    images, one more text part that announces them. With an empty text
    context, the fixed sentence that no relevant text was found stands in
    its place. *)
Theorem prompt_carries_cached_images (query text_context : str)
    (images_context : list Image) :
  let parts :=
    RAGService.prompt_parts_of query text_context images_context in
  pictures_of parts = images_context
  ∧ length parts
    = 7 + (if truthy images_context then 1 + length images_context else 0)
  ∧ head parts = Some (Text (lit "Question: " ++ query ++ [LF; LF]))
  ∧ parts !! 4
    = Some (Text (if truthy text_context then text_context
                  else lit "No relevant text was found in the document.")).
Proof.
  intros parts. unfold parts, RAGService.prompt_parts_of.
  destruct images_context as [|image images]; cbn [truthy].
  - done.
  - split; [|split; [|done]].
    + rewrite !pictures_of_app, pictures_of_pictures.
      unfold pictures_of. cbn [omap list_omap app].
      by rewrite app_nil_r.
    + rewrite !length_app, length_fmap. simpl. lia.
Qed.

(** ** The endpoints *)

Section Endpoints.
Context `{Externals}.

Lemma upload_accepted (fresh : str * str) (background_tasks : list Task)
    (name : str) (file_bytes : bytes) :
  (Z.of_nat (length file_bytes) ≤ Main.max_size)%Z →
  Main.upload_document fresh background_tasks
    (mkUploadFile name (Ok file_bytes))
  = (background_tasks
       ++ [mkTask file_bytes name (lit "doc_" ++ take 8 fresh.2) fresh.1],
     Ok [ (lit "message", lit "File '" ++ name ++ lit "' upload started.");
          (lit "task_id", fresh.1);
          (lit "collection_name", lit "doc_" ++ take 8 fresh.2) ]).
Proof.
  intros Hsmall. unfold Main.upload_document, len. cbn [read filename].
  destruct (Z.ltb_spec Main.max_size (Z.of_nat (length file_bytes)));
    [lia|done].
Qed.

Lemma process_document_async_eq (file_bytes : bytes)
    (filename collection_name task_id : str) (s : Server) :
  Main.process_document_async file_bytes filename collection_name task_id s
  = (mkServer _
       (<[task_id :=
            final_status filename collection_name
              (RAGService.process_document file_bytes filename
                 collection_name (world s)).2]> (processing_status s))
       (RAGService.process_document file_bytes filename collection_name
          (world s)).1,
     None).
Proof.
  unfold Main.process_document_async, Main.status_update. cbv zeta.
  rewrite lookup_insert_eq. cbv beta iota.
  destruct (RAGService.process_document file_bytes filename collection_name
              (world s)) as [w' [[]|e]];
    cbn [processing_status world fst snd];
    repeat (rewrite lookup_insert_eq; cbv beta iota);
    cbn [processing_status world st_status st_collection_name];
    repeat (rewrite lookup_insert_eq; cbv beta iota);
    cbn [st_status st_collection_name final_status Main.raised_str];
    by rewrite !insert_insert_eq.
Qed.

Lemma generate_response_total (query collection_name : str) (w : World) :
  ∃ (w' : World) (answer : str),
    RAGService.generate_response query collection_name w = (w', Ok answer).
Proof.
  rewrite generate_response_eq.
  destruct (retrieve query collection_name w) as [w' [results|e]]; eauto.
Qed.

End Endpoints.

(** X16. [upload_document] either hands exactly one task to the background
    runner, or none. It hands one when the file can be read and has at
    most 50 MB (the limit itself is accepted): the task carries the bytes,
    the file name, the task id and the collection name that the response
    returns, and the collection name is [doc_] followed by the first eight
    digits of the second identifier. In every other case no task is added
    and the error raised has status 500. *)
Theorem upload_document_outcomes `{Externals} (fresh : str * str)
    (background_tasks : list Task) (file : UploadFile) :
  let run := Main.upload_document fresh background_tasks file in
  match read file with
  | Ok file_bytes =>
      if decide (Z.of_nat (length file_bytes) ≤ 50 * 1024 * 1024)%Z then
        run.1
        = background_tasks
          ++ [mkTask file_bytes (filename file)
                (lit "doc_" ++ take 8 fresh.2) fresh.1]
        ∧ ∃ message,
            run.2 = Ok [ (lit "message", message);
                         (lit "task_id", fresh.1);
                         (lit "collection_name",
                          lit "doc_" ++ take 8 fresh.2) ]
      else
        run.1 = background_tasks
        ∧ ∃ detail, run.2 = Err (HTTPException 500 detail)
  | Err _ =>
      run.1 = background_tasks
      ∧ ∃ detail, run.2 = Err (HTTPException 500 detail)
  end.
Proof.
  intros run. unfold run. destruct file as [name [file_bytes|e]];
    cbn [read filename].
  - destruct (decide _) as [Hsmall|Hlarge].
    + rewrite upload_accepted by done. split; [done|]. by eexists.
    + rewrite upload_too_large by (unfold Main.max_size; lia).
      split; [done|]. by eexists.
  - unfold Main.upload_document. cbn [read]. split; [done|]. by eexists.
Qed.

(** X17. [chat_with_document] refuses an empty query or an empty
    collection name with status 400, before anything is retrieved: the
    state is as it was. With both present it always returns the answer of
    [generate_response] under the key [response]: its handler for other
    exceptions, with status 500, is never reached. *)
Theorem chat_with_document_outcomes `{Externals} (request : ChatRequest)
    (w : World) :
  (query request = [] ∨ collection_name request = [] →
   Main.chat_with_document request w
   = (w, Err (HTTPException 400
                (lit "Query and collection_name are required."))))
  ∧ (query request ≠ [] → collection_name request ≠ [] →
     ∃ (w' : World) (answer : str),
       RAGService.generate_response (query request)
         (collection_name request) w = (w', Ok answer)
       ∧ Main.chat_with_document request w
         = (w', Ok [ (lit "response", answer) ])).
Proof.
  unfold Main.chat_with_document. split.
  - intros [Hq|Hc].
    + by rewrite Hq.
    + rewrite Hc. cbn [truthy negb]. by rewrite orb_true_r.
  - intros Hq Hc.
    destruct (generate_response_total (query request)
                (collection_name request) w) as (w' & answer & Hrun).
    exists w', answer. split; [done|].
    destruct (query request); [done|].
    destruct (collection_name request); [done|].
    cbn [truthy negb orb]. unfold try_except, bind, ret. by rewrite Hrun.
Qed.

(** X18. The background task never raises. When it returns, the state of
    the services is the one [process_document] leaves, and the status of
    its task id reads [completed] with progress 100 when the ingestion
    succeeded, and [failed] with progress 0 and the text of the exception
    when it raised; the record keeps the collection name, and the records
    of the other task ids are as they were. *)
Theorem process_document_async_records_outcome `{Externals}
    (file_bytes : bytes) (filename collection_name task_id : str)
    (s : Server) :
  let run :=
    Main.process_document_async file_bytes filename collection_name task_id
      s in
  let ingestion :=
    RAGService.process_document file_bytes filename collection_name
      (world s) in
  run.2 = None
  ∧ world run.1 = ingestion.1
  ∧ Main.get_processing_status task_id run.1
    = Ok (match ingestion.2 with
          | Ok _ =>
              mkStatus (lit "completed")
                (lit "Document '" ++ filename
                 ++ lit "' processed successfully!") 100 collection_name
          | Err e =>
              mkStatus (lit "failed")
                (lit "Error processing document: " ++ exn_str e) 0
                collection_name
          end)
  ∧ (∀ other, other ≠ task_id →
       Main.get_processing_status other run.1
       = Main.get_processing_status other s).
Proof.
  intros run ingestion. unfold run, ingestion.
  rewrite process_document_async_eq. cbn [fst snd world].
  split; [done|]. split; [done|].
  unfold Main.get_processing_status. cbn [processing_status]. split.
  - by rewrite lookup_insert_eq.
  - intros other Hother. by rewrite lookup_insert_ne.
Qed.

Lemma run_task_statuses `{Externals} (s : Server) (t : Task) :
  processing_status (run_task s t)
  = <[task_id t :=
        final_status (task_filename t) (task_collection_name t)
          (RAGService.process_document (task_file_bytes t)
             (task_filename t) (task_collection_name t) (world s)).2]>
      (processing_status s).
Proof. unfold run_task. by rewrite process_document_async_eq. Qed.

Lemma final_status_finished `{Externals} (filename collection_name : str)
    (outcome : result unit) :
  let st := final_status filename collection_name outcome in
  (st_status st = lit "completed" ∧ st_progress st = 100)
  ∨ (st_status st = lit "failed" ∧ st_progress st = 0).
Proof. destruct outcome; [by left|by right]. Qed.

(** X19. Status records are never removed: after any sequence of
    background tasks, a task id has a record exactly when it had one
    before or is the id of one of the tasks. The record of each of these
    tasks is final, [completed] with progress 100 or [failed] with
    progress 0, never [processing]; and the status endpoint answers with
    status 404 exactly for the ids without a record. *)
Theorem status_records_accumulate `{Externals} (tasks : list Task)
    (s : Server) (id : str) :
  (is_Some (processing_status (run_tasks tasks s) !! id)
   ↔ is_Some (processing_status s !! id) ∨ id ∈ task_id <$> tasks)
  ∧ (id ∈ task_id <$> tasks →
     ∃ st : Status,
       Main.get_processing_status id (run_tasks tasks s) = Ok st
       ∧ ((st_status st = lit "completed" ∧ st_progress st = 100)
          ∨ (st_status st = lit "failed" ∧ st_progress st = 0)))
  ∧ (processing_status (run_tasks tasks s) !! id = None
     ↔ Main.get_processing_status id (run_tasks tasks s)
       = Err (HTTPException 404 (lit "Task not found"))).
Proof.
  split; [|split].
  - revert s. induction tasks as [|t tasks IH]; intros s.
    + cbn. rewrite elem_of_nil. tauto.
    + cbn [run_tasks foldl fmap list_fmap].
      fold (run_tasks tasks (run_task s t)).
      rewrite IH, run_task_statuses, elem_of_cons.
      destruct (decide (id = task_id t)) as [->|Hne].
      * rewrite lookup_insert_eq. split; [auto|]. intros _. left. by eexists.
      * rewrite lookup_insert_ne by done. tauto.
  - revert s. induction tasks as [|t tasks IH] using rev_ind; intros s.
    + cbn. by rewrite elem_of_nil.
    + unfold run_tasks. rewrite foldl_app. cbn [foldl].
      fold (run_tasks tasks s). rewrite fmap_app, elem_of_app.
      unfold Main.get_processing_status. rewrite run_task_statuses.
      destruct (decide (id = task_id t)) as [->|Hne].
      * intros _. rewrite lookup_insert_eq. eexists. split; [done|].
        apply final_status_finished.
      * rewrite lookup_insert_ne by done. intros [Hin|Hin].
        -- apply IH, Hin.
        -- cbn in Hin. apply elem_of_cons in Hin as [?|Hin]; [done|].
           by apply elem_of_nil in Hin.
  - unfold Main.get_processing_status.
    destruct (processing_status (run_tasks tasks s) !! id); split; done.
Qed.


